(** * Backlink runner: a shallow embedding of [backlink_runner.py] and [app.py]

    The runner drives a browser through Playwright, fills a form on each tool
    page, submits it and scrapes the outbound links of the page that results.
    The browser is outside the program, so it is modelled as an environment
    that answers every Playwright call; the Python methods are written in a
    state-and-exception monad over the trace of calls made so far. *)

From Stdlib Require Import Ascii String ZArith Lia.
From stdpp Require Import base decidable option list gmap strings.

Local Open Scope string_scope.
Local Open Scope list_scope.

(** ** Python strings

    A [string] is a sequence of characters with code points below 256. *)

Module PyStr.

Definition code (a : ascii) : N := N_of_ascii a.

(** [str.isspace] on one character (code points below 256). *)
Definition isspace (a : ascii) : bool :=
  let c := code a in
  ((9 <=? c) && (c <=? 13) || (28 <=? c) && (c <=? 32)
   || (c =? 133) || (c =? 160))%N.

Definition is_upper (a : ascii) : bool :=
  let c := code a in ((65 <=? c) && (c <=? 90))%N.

Definition is_lower (a : ascii) : bool :=
  let c := code a in ((97 <=? c) && (c <=? 122))%N.

Definition is_digit (a : ascii) : bool :=
  let c := code a in ((48 <=? c) && (c <=? 57))%N.

Definition is_ascii_alpha (a : ascii) : bool := is_upper a || is_lower a.

(** ASCII lower-casing of one character: ['A'..'Z'] to ['a'..'z']. *)
Definition lower_char (a : ascii) : ascii :=
  if is_upper a then ascii_of_N (code a + 32) else a.

Fixpoint map_chars (f : ascii -> ascii) (s : string) : string :=
  match s with
  | EmptyString => EmptyString
  | String a s' => String (f a) (map_chars f s')
  end.

Definition lower (s : string) : string := map_chars lower_char s.

Fixpoint forallb_chars (p : ascii -> bool) (s : string) : bool :=
  match s with
  | EmptyString => true
  | String a s' => p a && forallb_chars p s'
  end.

Fixpoint filter_chars (p : ascii -> bool) (s : string) : string :=
  match s with
  | EmptyString => EmptyString
  | String a s' => if p a then String a (filter_chars p s') else filter_chars p s'
  end.

Fixpoint lstrip_by (p : ascii -> bool) (s : string) : string :=
  match s with
  | EmptyString => EmptyString
  | String a s' => if p a then lstrip_by p s' else s
  end.

Fixpoint rstrip_by (p : ascii -> bool) (s : string) : string :=
  match s with
  | EmptyString => EmptyString
  | String a s' =>
      match rstrip_by p s' with
      | EmptyString => if p a then EmptyString else String a EmptyString
      | r => String a r
      end
  end.

(** [s.strip()] *)
Definition strip (s : string) : string := rstrip_by isspace (lstrip_by isspace s).

(** [s.rstrip(chars)] for a one-character [chars]. *)
Definition rstrip_char (c : ascii) (s : string) : string :=
  rstrip_by (Ascii.eqb c) s.

(** [s.startswith(p)] *)
Definition startswith (s p : string) : bool := String.prefix p s.

(** [c in s] for a character [c]. *)
Fixpoint has_char (c : ascii) (s : string) : bool :=
  match s with
  | EmptyString => false
  | String a s' => Ascii.eqb a c || has_char c s'
  end.

(** [sub in s] for strings. *)
Fixpoint contains (s sub : string) : bool :=
  String.prefix sub s ||
  match s with
  | EmptyString => false
  | String _ s' => contains s' sub
  end.

(** [s.partition(c)]: the text before the first [c], whether [c] was
    found, and the text after it. *)
Fixpoint partition (c : ascii) (s : string) : string * bool * string :=
  match s with
  | EmptyString => (EmptyString, false, EmptyString)
  | String a s' =>
      if Ascii.eqb a c then (EmptyString, true, s')
      else let '(h, found, t) := partition c s' in (String a h, found, t)
  end.

(** [s.rpartition(c)[2]]: the text after the last [c], or all of [s]. *)
Fixpoint after_last (c : ascii) (s : string) : string :=
  match s with
  | EmptyString => EmptyString
  | String a s' =>
      if has_char c s' then after_last c s'
      else if Ascii.eqb a c then s' else s
  end.

(** The prefix of [s] up to the first character satisfying [p], and the
    rest starting at that character. *)
Fixpoint break_at (p : ascii -> bool) (s : string) : string * string :=
  match s with
  | EmptyString => (EmptyString, EmptyString)
  | String a s' =>
      if p a then (EmptyString, s)
      else let '(h, t) := break_at p s' in (String a h, t)
  end.

Definition is_empty (s : string) : bool :=
  match s with EmptyString => true | _ => false end.

End PyStr.

(** ** Exceptions and outcomes *)

(** The exception classes the program distinguishes.  [KeyboardInterrupt]
    stands for every [BaseException] that is not an [Exception]. *)
Inductive exn : Type :=
  | PlaywrightTimeoutError
  | PlaywrightError
  | ValueError
  | KeyboardInterrupt.

(** [except Exception] *)
Definition is_Exception (e : exn) : bool :=
  match e with KeyboardInterrupt => false | _ => true end.

(** [except PlaywrightTimeoutError] *)
Definition is_PlaywrightTimeoutError (e : exn) : bool :=
  match e with PlaywrightTimeoutError => true | _ => false end.

(** A bare [except:] *)
Definition any_exn (e : exn) : bool := true.

Inductive outcome (A : Type) : Type :=
  | Return (a : A)
  | Raise (e : exn).
Arguments Return {A} a.
Arguments Raise {A} e.

(** ** [urllib.parse.urlparse]

    The two components the runner reads, [scheme] and [netloc], as
    [urlsplit] of CPython 3.11 computes them.  The check of a bracketed host
    ([ipaddress.ip_address] and the IPvFuture pattern) is taken as a verdict
    [bracketed_host_ok]; the NFKC check of [_checknetloc] never fires on code
    points below 256. *)

Module UrlParse.
Import PyStr.

Record ParseResult : Type := mkParseResult { scheme : string; netloc : string }.

Definition c0_control_or_space (a : ascii) : bool := (code a <=? 32)%N.

Definition unsafe_url_byte (a : ascii) : bool :=
  let c := code a in ((c =? 9) || (c =? 13) || (c =? 10))%N.

Definition scheme_char (a : ascii) : bool :=
  is_lower a || is_upper a || is_digit a
  || Ascii.eqb a "+" || Ascii.eqb a "-" || Ascii.eqb a ".".

(** [i = url.find(':')] with the test [i > 0 and url[0].isascii() and
    url[0].isalpha()] and the loop over [url[:i]]: the scheme and the text
    after the colon, or no scheme and the url unchanged. *)
Definition split_scheme (url : string) : string * string :=
  let '(before, found, after) := partition ":" url in
  match before with
  | String a _ =>
      if found && is_ascii_alpha a && forallb_chars scheme_char before
      then (lower before, after)
      else (EmptyString, url)
  | EmptyString => (EmptyString, url)
  end.

Definition netloc_delim (a : ascii) : bool :=
  Ascii.eqb a "/" || Ascii.eqb a "?" || Ascii.eqb a "#".

(** [_splitnetloc(url, 2)] *)
Definition _splitnetloc (url : string) : string * string :=
  match url with
  | String _ (String _ rest) => break_at netloc_delim rest
  | _ => (EmptyString, EmptyString)
  end.

Section Bracketed.
Variable bracketed_host_ok : string -> bool.

(** [_check_bracketed_netloc]: [true] when it returns, [false] when it
    raises [ValueError]. *)
Definition _check_bracketed_netloc (nl : string) : bool :=
  let hostname_and_port := after_last "@" nl in
  let '(before_bracket, have_open_br, bracketed) := partition "[" hostname_and_port in
  if have_open_br then
    if negb (is_empty before_bracket) then false
    else
      let '(hostname, _, port) := partition "]" bracketed in
      if negb (is_empty port) && negb (startswith port ":") then false
      else bracketed_host_ok hostname
  else
    let '(hostname, _, _) := partition ":" hostname_and_port in
    bracketed_host_ok hostname.

Definition urlparse (url0 : string) : outcome ParseResult :=
  let url := lstrip_by c0_control_or_space url0 in
  let url := filter_chars (fun a => negb (unsafe_url_byte a)) url in
  let '(sch, url) := split_scheme url in
  if startswith url "//" then
    let '(nl, _) := _splitnetloc url in
    let open_br := has_char "[" nl in
    let close_br := has_char "]" nl in
    if (open_br && negb close_br) || (close_br && negb open_br) then Raise ValueError
    else if open_br && close_br && negb (_check_bracketed_netloc nl) then Raise ValueError
    else Return (mkParseResult sch nl)
  else Return (mkParseResult sch EmptyString).
End Bracketed.

End UrlParse.

(** ** Order-preserving deduplication

    The loop of [_load_tools] (lines 77-83), repeated in [_extract_links]
    (lines 253-258): [seen] is a set, [deduped] grows at its end. *)

Fixpoint dedupe_loop (seen : gset string) (deduped : list string)
    (raw : list string) : list string :=
  match raw with
  | [] => deduped
  | u :: rest =>
      if decide (u ∈ seen) then dedupe_loop seen deduped rest
      else dedupe_loop ({[u]} ∪ seen) (deduped ++ [u]) rest
  end.

Definition dedupe (raw : list string) : list string := dedupe_loop ∅ [] raw.

(** ** The browser as an environment *)

Definition page : Type := nat.

(** The locators the runner builds.  A locator is a lazy query: building one
    performs no call, the browser resolves it when it is counted or acted
    on.  A pattern that [re.compile] rejects is an environment that fails the
    count of that locator: both happen inside the same [try]. *)
Inductive locator : Type :=
  | get_by_label_first (kw : string)
      (* page.get_by_label(re.compile(kw, re.I)).first *)
  | field_xpath (keyword_variants : list string)
      (* page.locator(xpath), lines 151-162 *)
  | submit_typed_first
      (* page.locator("input[type=submit], button[type=submit]").first *)
  | get_by_role_button_first (txt : string)
      (* page.get_by_role("button", name=re.compile(txt, re.I)).first *)
  | button_has_text_first (txt : string)
      (* page.locator(f"button:has-text('{txt}')").first *)
  | input_value_first (txt : string).
      (* page.locator(f"input[type=button][value*='{txt}'], input[value*='{txt}']").first *)

Module Selector.

Fixpoint join (sep : string) (parts : list string) : string :=
  match parts with
  | [] => ""
  | [p] => p
  | p :: rest => p ++ sep ++ join sep rest
  end.

Definition translate_contains (attr kw : string) : string :=
  "contains(translate(@" ++ attr
  ++ ",'ABCDEFGHIJKLMNOPQRSTUVWXYZ','abcdefghijklmnopqrstuvwxyz'), '" ++ kw ++ "')".

Definition kw_clause (kw : string) : string :=
  translate_contains "placeholder" kw
  ++ " or " ++ translate_contains "name" kw
  ++ " or " ++ translate_contains "id" kw
  ++ " or " ++ translate_contains "aria-label" kw.

Definition kw_union (keyword_variants : list string) : string :=
  join " or " (map kw_clause keyword_variants).

Definition xpath (keyword_variants : list string) : string :=
  "xpath=(//input[(" ++ kw_union keyword_variants
  ++ ")] | //textarea[(" ++ kw_union keyword_variants ++ ")])[1]".

(** The selector text or pattern each locator carries. *)
Definition text (l : locator) : string :=
  match l with
  | get_by_label_first kw => kw
  | field_xpath kws => xpath kws
  | submit_typed_first => "input[type=submit], button[type=submit]"
  | get_by_role_button_first txt => txt
  | button_has_text_first txt => "button:has-text('" ++ txt ++ "')"
  | input_value_first txt =>
      "input[type=button][value*='" ++ txt ++ "'], input[value*='" ++ txt ++ "']"
  end.

End Selector.

(** The calls the program makes on Playwright and on [time]. *)
Inductive op : Type :=
  | SyncPlaywrightStart
  | ChromiumLaunch (headless : bool)
  | BrowserNewContext
  | ContextClose
  | BrowserClose
  | PlaywrightStop
  | ContextNewPage
  | PageSetDefaultTimeout (pg : page) (ms : Z)
  | PageGoto (pg : page) (url : string)
  | LocatorCount (pg : page) (l : locator)
  | LocatorFill (pg : page) (l : locator) (value : string)
  | LocatorType (pg : page) (l : locator) (text : string)
  | LocatorPress (pg : page) (l : locator) (key : string)
  | LocatorClick (pg : page) (l : locator)
  | KeyboardPress (pg : page) (key : string)
  | PageWaitForLoadState (pg : page) (timeout : Z)
  | TimeSleep
  | PageUrl (pg : page)
  | PageContent (pg : page)
  | PageClose (pg : page).

(** What a call returns.  [page.content()] is abstracted to what
    [_extract_links] reads from it through BeautifulSoup: the [href] values
    of the [<a href>] elements, in document order. *)
Definition ans (o : op) : Type :=
  match o with
  | ContextNewPage => page
  | LocatorCount _ _ => nat
  | PageUrl _ => string
  | PageContent _ => list string
  | _ => unit
  end.

(** One entry of the trace: the call and the exception it raised, if any. *)
Record event : Type := Ev { ev_op : op; ev_err : option exn }.

(** The world outside the program: the browser's answer to a call, given
    the calls made before it, and the verdict on a bracketed host. *)
Record world : Type := World {
  answer : list event -> forall o : op, outcome (ans o);
  bracketed_host_ok : string -> bool
}.

(** ** State and exceptions *)

(** The fields of the [BacklinkRunner] object and the trace of calls. *)
Record state : Type := State {
  self_per_tool_timeout_ms : Z;
  self_tools : list string;
  trace : list event
}.

Definition M (A : Type) : Type := state -> outcome A * state.

#[global] Instance M_ret : MRet M := fun A a s => (Return a, s).

#[global] Instance M_bind : MBind M := fun A B f m s =>
  match m s with
  | (Return a, s') => f a s'
  | (Raise e, s') => (Raise e, s')
  end.

Definition lift {A} (r : outcome A) : M A := fun s => (r, s).

Definition log (ev : event) (s : state) : state :=
  State (self_per_tool_timeout_ms s) (self_tools s) (trace s ++ [ev]).

(** Make the call [o]: the environment answers, the trace records it. *)
Definition perform (W : world) (o : op) : M (ans o) := fun s =>
  match answer W (trace s) o with
  | Return a => (Return a, log (Ev o None) s)
  | Raise e => (Raise e, log (Ev o (Some e)) s)
  end.

(** [try: body except <catches>: handler] *)
Definition try_except {A} (body : M A) (catches : exn -> bool) (handler : M A) : M A :=
  fun s =>
    match body s with
    | (Return a, s') => (Return a, s')
    | (Raise e, s') => if catches e then handler s' else (Raise e, s')
    end.

(** [try: body finally: final]: [final] always runs; an exception it raises
    replaces the outcome of [body]. *)
Definition try_finally {A} (body : M A) (final : M unit) : M A :=
  fun s =>
    let '(r, s') := body s in
    match final s' with
    | (Return _, s'') => (r, s'')
    | (Raise e, s'') => (Raise e, s'')
    end.

Definition get_tools : M (list string) := fun s => (Return (self_tools s), s).
Definition get_per_tool_timeout_ms : M Z := fun s => (Return (self_per_tool_timeout_ms s), s).
Definition set_tools (tools : list string) : M unit := fun s =>
  (Return tt, State (self_per_tool_timeout_ms s) tools (trace s)).
Definition set_per_tool_timeout_ms (ms : Z) : M unit := fun s =>
  (Return tt, State ms (self_tools s) (trace s)).

(** ** [class BacklinkRunner] *)

Record BacklinkResult : Type := mkBacklinkResult {
  target_url : string;
  keywords : string;
  tool_url : string;
  backlink_url : string
}.

Definition raw_tools : list string := [
  "https://searchenginereports.net/backlink-maker";
  "http://www.indexkings.com/";
  "https://www.backlinkr.net/";
  "http://www.imtalk.org/cmps_index.php?pageid=IMT-Website-Submitter";
  "http://sitowebinfo.com/back/";
  "https://useme.org/";
  "http://247backlinks.info/";
  "http://real-backlinks.com/en";
  "http://www.freebacklinkbuilder.net/";
  "https://smallseotools.com/backlink-maker/";
  "https://w3seo.info/backlink-maker";
  "https://sitechecker.pro/backlinks-generator/";
  "https://seo1seotools.com/";
  "https://free-backlinks.org/";
  "http://ping-my-url.net/";
  "https://freebacklinks.info/";
  "http://ping-my-url.com/beta.html";
  "http://free-backlinks.info/";
  "https://free-backlinks.net/free-backlink-generator.html";
  "http://sitowebinfo.com/back/";
  "http://buy-backlinks.info/free-backlinks/";
  "https://seo1seotools.com/free-backlink-generator.html";
  "http://freebacklinkgenerator.net/free-backlink-generator.html";
  "https://buy-backlinks.net/free-backlink-generator.html";
  "https://addurl.official.my/";
  "http://100downloads.xyz/edugov/";
  "https://smartseotools.org/backlink-maker";
  "https://sitowebinfo.com/back/";
  "http://connectionbuilder.co.uk/";
  "https://www.duplichecker.com/backlink-maker.php";
  "https://seowagon.com/backlink-maker";
  "http://bulklink.org/";
  "https://www.coderduck.com/backlink-maker";
  "https://www.xwebtools.com/backlink-generator/";
  "https://www.w3era.com/tool/backlink-maker/"
].

Definition _load_tools : list string := dedupe raw_tools.

Definition button_texts : list string :=
  ["submit"; "generate"; "create"; "make"; "build"; "start"; "go"; "check"; "search"; "run"].

Section Runner.
Variable W : world.

Definition urlparse (url : string) : outcome UrlParse.ParseResult :=
  UrlParse.urlparse (bracketed_host_ok W) url.

Definition __init__ (headless : bool) (per_tool_timeout_sec : Z) : M unit :=
  set_per_tool_timeout_ms (per_tool_timeout_sec * 1000);;
  perform W SyncPlaywrightStart;;
  perform W (ChromiumLaunch headless);;
  perform W BrowserNewContext;;
  set_tools _load_tools.

Definition shutdown : M unit :=
  try_finally (perform W ContextClose)
    (try_finally (perform W BrowserClose)
       (perform W PlaywrightStop)).

(** One turn of the loop of lines 143-149; [true] when the [return el] is
    reached. *)
Definition label_hit (pg : page) (kw : string) : M bool :=
  try_except
    (n ← perform W (LocatorCount pg (get_by_label_first kw));
     mret (0 <? n)%nat)
    is_Exception (mret false).

Fixpoint label_loop (pg : page) (keyword_variants : list string) : M (option locator) :=
  match keyword_variants with
  | [] => mret None
  | kw :: rest =>
      hit ← label_hit pg kw;
      match hit with
      | true => mret (Some (get_by_label_first kw))
      | false => label_loop pg rest
      end
  end.

Definition _find_best_field (pg : page) (keyword_variants : list string)
    : M (option locator) :=
  el ← label_loop pg keyword_variants;
  match el with
  | Some l => mret (Some l)
  | None =>
      hit ← try_except
              (n ← perform W (LocatorCount pg (field_xpath keyword_variants));
               mret (0 <? n)%nat)
              is_Exception (mret false);
      match hit with
      | true => mret (Some (field_xpath keyword_variants))
      | false => mret None
      end
  end.

(** The block repeated four times in [_click_submit]: count the
    candidate, click it when present; any [Exception] is swallowed.
    [true] when the [return True] is reached. *)
Definition click_if_present (pg : page) (l : locator) : M bool :=
  try_except
    (n ← perform W (LocatorCount pg l);
     if (0 <? n)%nat then perform W (LocatorClick pg l);; mret true else mret false)
    is_Exception (mret false).

Fixpoint button_loop (pg : page) (texts : list string) : M bool :=
  match texts with
  | [] => mret false
  | txt :: rest =>
      c1 ← click_if_present pg (get_by_role_button_first txt);
      match c1 with true => mret true | false =>
      c2 ← click_if_present pg (button_has_text_first txt);
      match c2 with true => mret true | false =>
      c3 ← click_if_present pg (input_value_first txt);
      match c3 with true => mret true | false => button_loop pg rest end end end
  end.

Definition _click_submit (pg : page) : M bool :=
  c ← click_if_present pg submit_typed_first;
  match c with true => mret true | false =>
  b ← button_loop pg button_texts;
  match b with true => mret true | false =>
  try_except (perform W (KeyboardPress pg "Enter");; mret true)
    is_Exception (mret false)
  end end.

Definition _wait_for_results (pg : page) : M unit :=
  ms ← get_per_tool_timeout_ms;
  try_except (perform W (PageWaitForLoadState pg ms))
    is_PlaywrightTimeoutError (mret tt);;
  perform W TimeSleep.

(** Line 240, given the value of [page.url]. *)
Definition join_to_page (page_url href : string) : string :=
  PyStr.rstrip_char "/" page_url
  ++ (if negb (PyStr.startswith href "/") then "/" else "")
  ++ href.

(** The body of the loop of lines 228-251 for one anchor: the link to
    append to [found], or [None] on [continue]. *)
Definition anchor_link (pg : page) (current_host : string) (a : string)
    : M (option string) :=
  let href := PyStr.strip a in
  if PyStr.is_empty href then mret None
  else if PyStr.startswith href "javascript:" || PyStr.startswith href "#" then mret None
  else if PyStr.startswith href "mailto:" then mret None
  else
    parsed ← lift (urlparse href);
    abs_url ←
      (if PyStr.is_empty (UrlParse.scheme parsed) then
         try_except
           (u ← perform W (PageUrl pg); mret (join_to_page u href))
           is_Exception (mret href)
       else mret href);
    host ← lift (urlparse abs_url);
    if PyStr.is_empty (UrlParse.netloc host) then mret None
    else if String.eqb (UrlParse.netloc host) current_host then mret None
    else mret (Some abs_url).

Fixpoint anchors_loop (pg : page) (current_host : string) (found : list string)
    (anchors : list string) : M (list string) :=
  match anchors with
  | [] => mret found
  | a :: rest =>
      r ← anchor_link pg current_host a;
      match r with
      | Some abs_url => anchors_loop pg current_host (found ++ [abs_url]) rest
      | None => anchors_loop pg current_host found rest
      end
  end.

Definition _extract_links (pg : page) : M (list string) :=
  u ← perform W (PageUrl pg);
  cur ← lift (urlparse u);
  let current_host := UrlParse.netloc cur in
  html ← try_except (h ← perform W (PageContent pg); mret (Some h))
           is_Exception (mret None);
  match html with
  | None => mret []
  | Some anchors =>
      found ← anchors_loop pg current_host [] anchors;
      mret (dedupe found)
  end.

Definition _run_single_tool (tool_url target_url keywords : string)
    : M (list BacklinkResult) :=
  pg ← perform W ContextNewPage;
  ms ← get_per_tool_timeout_ms;
  perform W (PageSetDefaultTimeout pg ms);;
  try_finally
    (perform W (PageGoto pg tool_url);;
     url_input ← _find_best_field pg ["url"; "website"; "site"; "link"];
     match url_input with
     | Some l => perform W (LocatorFill pg l "");; perform W (LocatorType pg l target_url)
     | None => mret tt
     end;;
     kw_input ← _find_best_field pg ["keyword"; "keywords"; "tags"; "anchor"];
     match kw_input with
     | Some l =>
         if negb (PyStr.is_empty keywords)
         then perform W (LocatorFill pg l "");; perform W (LocatorType pg l keywords)
         else mret tt
     | None => mret tt
     end;;
     submitted ← _click_submit pg;
     match submitted with
     | false =>
         match url_input with
         | Some l => perform W (LocatorPress pg l "Enter")
         | None => mret tt
         end
     | true => mret tt
     end;;
     _wait_for_results pg;;
     backlinks ← _extract_links pg;
     mret (map (mkBacklinkResult target_url keywords tool_url) backlinks))
    (try_except (perform W (PageClose pg)) is_Exception (mret tt)).

(** The loop of [run_for_target] over the remaining tools, [results]
    being the list built so far. *)
Fixpoint tools_loop (url keywords : string) (results : list BacklinkResult)
    (tools : list string) : M (list BacklinkResult) :=
  match tools with
  | [] => mret results
  | tool :: rest =>
      results' ← try_except
                   (tool_results ← _run_single_tool tool url keywords;
                    mret (results ++ tool_results))
                   is_Exception (mret results);
      tools_loop url keywords results' rest
  end.

Definition run_for_target (url keywords : string) : M (list BacklinkResult) :=
  tools ← get_tools;
  tools_loop url keywords [] tools.

(** *** [app.py] *)

(** Lines 95-112 without the user-interface calls: the targets are run in
    order, [results] keeps what the targets before an [Exception]
    produced, and [shutdown] runs last inside a bare [except]. *)
Fixpoint targets_loop (results : list BacklinkResult)
    (targets : list (string * string)) : M (list BacklinkResult) :=
  match targets with
  | [] => mret results
  | (url, kws) :: rest =>
      r ← try_except
            (target_results ← run_for_target url kws;
             mret (Some (results ++ target_results)))
            is_Exception (mret None);
      match r with
      | Some results' => targets_loop results' rest
      | None => mret results
      end
  end.

Definition teardown : M unit := try_except shutdown any_exn (mret tt).

Definition process_targets (targets : list (string * string)) : M (list BacklinkResult) :=
  try_finally (targets_loop [] targets) teardown.

End Runner.

(** [df.drop_duplicates(subset=["backlink_url"])]: pandas keeps the first
    row of every value of the column. *)
Fixpoint drop_duplicates_loop (seen : gset string) (rows : list BacklinkResult)
    : list BacklinkResult :=
  match rows with
  | [] => []
  | r :: rest =>
      if decide (backlink_url r ∈ seen) then drop_duplicates_loop seen rest
      else r :: drop_duplicates_loop ({[backlink_url r]} ∪ seen) rest
  end.

Definition drop_duplicates (rows : list BacklinkResult) : list BacklinkResult :=
  drop_duplicates_loop ∅ rows.

(** ** Pages used in the examples *)

(** A form field of a page: an [input] or [textarea] element with its
    attributes and the text of the label attached to it, if any. *)
Record element : Type := Element {
  tag : string;
  attrs : list (string * string);
  label : option string
}.

Module Dom.

Fixpoint attr (name : string) (l : list (string * string)) : option string :=
  match l with
  | [] => None
  | (k, v) :: rest => if String.eqb k name then Some v else attr name rest
  end.

(** XPath [translate(@name, 'A..Z', 'a..z')]: the string value of a
    missing attribute is empty. *)
Definition translated (name : string) (el : element) : string :=
  match attr name (attrs el) with
  | Some v => PyStr.lower v
  | None => ""
  end.

(** One clause of [kw_union]: the hint is inserted as it is written. *)
Definition kw_clause (kw : string) (el : element) : bool :=
  PyStr.contains (translated "placeholder" el) kw
  || PyStr.contains (translated "name" el) kw
  || PyStr.contains (translated "id" el) kw
  || PyStr.contains (translated "aria-label" el) kw.









End Dom.

Definition no_bracketed_host (hostname : string) : bool := false.

(** The answers of a page on which every call succeeds and nothing is found. *)
Definition quiet (o : op) : outcome (ans o) :=
  match o as o' return outcome (ans o') with
  | ContextNewPage => Return 0
  | LocatorCount _ _ => Return 0
  | PageUrl _ => Return "about:blank"
  | PageContent _ => Return []
  | SyncPlaywrightStart | ChromiumLaunch _ | BrowserNewContext | ContextClose
  | BrowserClose | PlaywrightStop | PageSetDefaultTimeout _ _ | PageGoto _ _
  | LocatorFill _ _ _ | LocatorType _ _ _ | LocatorPress _ _ _ | LocatorClick _ _
  | KeyboardPress _ _ | PageWaitForLoadState _ _ | TimeSleep | PageClose _ => Return tt
  end.

(** A page that reports [url] as its address and whose anchors carry
    [hrefs], whatever address was navigated to; it has no field and no
    button. *)
Definition static_page (url : string) (hrefs : list string) : world :=
  World (fun _ o =>
           match o as o' return outcome (ans o') with
           | PageUrl _ => Return url
           | PageContent _ => Return hrefs
           | o' => quiet o'
           end)
        no_bracketed_host.


(** A browser whose context fails to close. *)
Definition broken_context : world :=
  World (fun _ o =>
           match o as o' return outcome (ans o') with
           | ContextClose => Raise PlaywrightError
           | o' => quiet o'
           end)
        no_bracketed_host.

(** A web in which navigation to [dead] fails and every other page is
    [static_page url hrefs]. *)
Definition web_with_dead_tool (dead url : string) (hrefs : list string) : world :=
  World (fun h o =>
           match o as o' return outcome (ans o') with
           | PageGoto _ u =>
               if String.eqb u dead then Raise PlaywrightError else Return tt
           | o' => answer (static_page url hrefs) h o'
           end)
        no_bracketed_host.




(** A tool that stays at its own address and links to itself and elsewhere. *)
Definition plain_tool : world :=
  static_page "http://a.example/tool" ["http://a.example/x"; "http://c.example/y"].

(** The runner object before [__init__] has run. *)
Definition fresh : state := State 0 [] [].

(** A runner with the catalog [tools] and the default timeout, no call made. *)
Definition runner_with (tools : list string) : state := State 45000 tools [].

(** ** The rest of [app.py] *)

(** [t.get(key) or ""] on a target row, a dictionary from strings to strings. *)
Definition get_or_empty (t : gmap string string) (key : string) : string :=
  default "" (t !! key).

(** [{"url": url, "keywords": keywords}] *)
Definition target_dict (url keywords : string) : gmap string string :=
  <["url" := url]> (<["keywords" := keywords]> ∅).

(** The loop of [normalize_targets] (lines 62-69), [cleaned] being the list
    built so far. *)
Fixpoint normalize_loop (cleaned : list (gmap string string))
    (raw_targets : list (gmap string string)) : list (gmap string string) :=
  match raw_targets with
  | [] => cleaned
  | t :: rest =>
      let url := PyStr.strip (get_or_empty t "url") in
      let keywords := PyStr.strip (get_or_empty t "keywords") in
      if PyStr.is_empty url then normalize_loop cleaned rest
      else normalize_loop (cleaned ++ [target_dict url keywords]) rest
  end.

Definition normalize_targets (raw_targets : list (gmap string string))
    : list (gmap string string) :=
  normalize_loop [] raw_targets.

(** How the block under [if run_clicked:] ends (lines 72-112), the calls to
    the user interface left out. *)
Inductive run_outcome : Type :=
  | NoTargets                                   (* st.warning, st.stop *)
  | InitFailed                                  (* st.error, st.stop *)
  | Processed (results : list BacklinkResult).

(** [target["url"], target["keywords"]] of a normalized row. *)
Definition target_pair (t : gmap string string) : string * string :=
  (get_or_empty t "url", get_or_empty t "keywords").

Definition on_run_clicked (W : world) (session_targets : list (gmap string string))
    : M run_outcome :=
  match normalize_targets session_targets with
  | [] => mret NoTargets
  | targets =>
      started ← try_except (__init__ W true 60;; mret true) is_Exception (mret false);
      match started with
      | false => mret InitFailed
      | true =>
          results ← process_targets W (map target_pair targets);
          mret (Processed results)
      end
  end.

(** ** Notions used in the further properties *)

(** A call made while a loaded page is worked on: a query or an action on
    the page, a wait, a read of its address or content. *)
Definition is_work (ev : event) : bool :=
  match ev_op ev with
  | LocatorCount _ _ | LocatorFill _ _ _ | LocatorType _ _ _ | LocatorPress _ _ _
  | LocatorClick _ _ | KeyboardPress _ _ | PageWaitForLoadState _ _ | TimeSleep
  | PageUrl _ | PageContent _ => true
  | _ => false
  end.

Definition works (ev : event) : Prop := is_work ev = true.


(** The anchor [a] reaches the [urlparse] of line 236: its stripped
    destination is not empty and is neither a script, a fragment nor a
    mail link. *)
Definition kept_href (a : string) : Prop :=
  PyStr.is_empty (PyStr.strip a) = false
  /\ PyStr.startswith (PyStr.strip a) "javascript:" = false
  /\ PyStr.startswith (PyStr.strip a) "#" = false
  /\ PyStr.startswith (PyStr.strip a) "mailto:" = false.

(** A page with one anchor whose destination has an unbalanced bracket. *)
Definition bracket_page : world :=
  static_page "http://a.example/tool" ["http://c.example/y"; "http://[c.example/z"].

(** The first two steps of [urlsplit]: leading control characters and
    spaces stripped, tabs and line breaks removed. *)
Definition url_normal (u : string) : string :=
  PyStr.filter_chars (fun a => negb (UrlParse.unsafe_url_byte a))
    (PyStr.lstrip_by UrlParse.c0_control_or_space u).

(** The steps of [urlsplit] after the scheme is split off. *)
Definition parse_split (chk : string -> bool) (sch url : string)
    : outcome UrlParse.ParseResult :=
  if PyStr.startswith url "//" then
    let '(nl, _) := UrlParse._splitnetloc url in
    let open_br := PyStr.has_char "[" nl in
    let close_br := PyStr.has_char "]" nl in
    if (open_br && negb close_br) || (close_br && negb open_br) then Raise ValueError
    else if open_br && close_br && negb (UrlParse._check_bracketed_netloc chk nl)
         then Raise ValueError
         else Return (UrlParse.mkParseResult sch nl)
  else Return (UrlParse.mkParseResult sch EmptyString).

(** A string made of slashes only. *)
Definition all_slash (z : string) : Prop := PyStr.forallb_chars (Ascii.eqb "/") z = true.

(** A string that is empty or starts with a slash. *)
Definition slash_led (s : string) : Prop :=
  match s with
  | EmptyString => True
  | String c _ => c = "/"%char
  end.

(** A web in which navigating to [stop] is interrupted from the keyboard
    and every other page is [static_page url hrefs]. *)
Definition interrupted_web (stop url : string) (hrefs : list string) : world :=
  World (fun h o =>
           match o as o' return outcome (ans o') with
           | PageGoto _ u =>
               if String.eqb u stop then Raise KeyboardInterrupt else Return tt
           | o' => answer (static_page url hrefs) h o'
           end)
        no_bracketed_host.

(** No run of [runs] raised anything but an [Exception]. *)
Definition caught (runs : list (string * outcome (list BacklinkResult))) : Prop :=
  Forall (fun run => forall e, snd run = Raise e -> is_Exception e = true) runs.


(** The three calls of [shutdown], with what each raised. *)
Definition shutdown_calls (e1 e2 e3 : option exn) : list event :=
  [Ev ContextClose e1; Ev BrowserClose e2; Ev PlaywrightStop e3].

(** The state after [run_for_target] on each target in order. *)
Fixpoint after_targets (W : world) (targets : list (string * string)) (s : state) : state :=
  match targets with
  | [] => s
  | (url, kws) :: rest => after_targets W rest (snd (run_for_target W url kws s))
  end.


(** A browser that cannot be launched. *)
Definition no_browser : world :=
  World (fun _ o =>
           match o as o' return outcome (ans o') with
           | ChromiumLaunch _ => Raise PlaywrightError
           | o' => quiet o'
           end)
        no_bracketed_host.

(** A page whose load state never becomes idle. *)
Definition never_idle : world :=
  World (fun _ o =>
           match o as o' return outcome (ans o') with
           | PageWaitForLoadState _ _ => Raise PlaywrightTimeoutError
           | o' => quiet o'
           end)
        no_bracketed_host.

(** A page whose content cannot be read. *)
Definition unreadable_page : world :=
  World (fun _ o =>
           match o as o' return outcome (ans o') with
           | PageUrl _ => Return "http://a.example/tool"
           | PageContent _ => Raise PlaywrightError
           | o' => quiet o'
           end)
        no_bracketed_host.

(** ** Notions used in the statements *)

(** [m] leaves the fields of the runner as they are and appends to the trace
    only events satisfying [P]. *)
Definition emits {A} (P : event -> Prop) (m : M A) : Prop :=
  forall s, exists evs,
    snd (m s) = State (self_per_tool_timeout_ms s) (self_tools s) (trace s ++ evs)
    /\ Forall P evs.

(** The world raises nothing but subclasses of [Exception]. *)
Definition only_Exceptions (W : world) : Prop :=
  forall h o e, answer W h o = Raise e -> is_Exception e = true.

Definition is_new_page (ev : event) : bool :=
  match ev_op ev with ContextNewPage => true | _ => false end.

(** The number of pages the trace [evs] asked the context for. *)
Definition pages_opened (evs : list event) : nat := length (List.filter is_new_page evs).

(** The two calls that start the work on a tool: opening its page and
    navigating to it. *)
Definition is_entry (ev : event) : bool :=
  match ev_op ev with ContextNewPage | PageGoto _ _ => true | _ => false end.

(** An event of the work on an opened, loaded page: any other call. *)
Definition on_page (ev : event) : Prop := is_entry ev = false.

(** The addresses the trace [evs] navigated to, in order. *)
Definition navigations (evs : list event) : list string :=
  omap (fun ev => match ev_op ev with PageGoto _ u => Some u | _ => None end) evs.

(** The context always hands out a page and the page accepts its timeout. *)
Definition opens_pages (W : world) : Prop :=
  (forall h, exists pg, answer W h ContextNewPage = Return pg)
  /\ (forall h pg ms, answer W h (PageSetDefaultTimeout pg ms) = Return tt).

(** What [_run_single_tool] does between [page.goto] and [page.close]. *)
Definition after_goto (W : world) (pg : page) (tool_url target_url keywords : string)
    : M (list BacklinkResult) :=
  url_input ← _find_best_field W pg ["url"; "website"; "site"; "link"];
  match url_input with
  | Some l => perform W (LocatorFill pg l "");; perform W (LocatorType pg l target_url)
  | None => mret tt
  end;;
  kw_input ← _find_best_field W pg ["keyword"; "keywords"; "tags"; "anchor"];
  match kw_input with
  | Some l =>
      if negb (PyStr.is_empty keywords)
      then perform W (LocatorFill pg l "");; perform W (LocatorType pg l keywords)
      else mret tt
  | None => mret tt
  end;;
  submitted ← _click_submit W pg;
  match submitted with
  | false =>
      match url_input with
      | Some l => perform W (LocatorPress pg l "Enter")
      | None => mret tt
      end
  | true => mret tt
  end;;
  _wait_for_results W pg;;
  backlinks ← _extract_links W pg;
  mret (map (mkBacklinkResult target_url keywords tool_url) backlinks).


(** [s] after the calls [evs]. *)
Definition ext (s : state) (evs : list event) : state :=
  State (self_per_tool_timeout_ms s) (self_tools s) (trace s ++ evs).

(** The exception an answer raises, if any. *)
Definition err_of {A} (r : outcome A) : option exn :=
  match r with Return _ => None | Raise e => Some e end.

(** The outcome of [try: a finally: try: b finally: c] from the exceptions
    of the three calls: the last one raised wins. *)
Definition last_raised (e1 e2 e3 : option exn) : outcome unit :=
  match e3, e2, e1 with
  | Some e, _, _ => Raise e
  | None, Some e, _ => Raise e
  | None, None, Some e => Raise e
  | None, None, None => Return tt
  end.

(** An action on the page that went through: a click or a key press that
    did not raise. *)
Definition is_action (ev : event) : bool :=
  match ev_op ev, ev_err ev with
  | LocatorClick _ _, None => true
  | KeyboardPress _ _, None => true
  | _, _ => false
  end.

(** The locators the calls [evs] counted, in order. *)
Definition counted (evs : list event) : list locator :=
  omap (fun ev => match ev_op ev with LocatorCount _ l => Some l | _ => None end) evs.

Definition candidates_for (txt : string) : list locator :=
  [get_by_role_button_first txt; button_has_text_first txt; input_value_first txt].

(** The submit candidates in the order [_click_submit] tries them. *)
Definition submit_candidates : list locator :=
  submit_typed_first :: flat_map candidates_for button_texts.

(** The calls [evs] went through the candidates [cands] in order up to one
    that was present, clicked it, and stopped; no action went through
    before that click. *)
Definition clicked (pg : page) (cands : list locator) (evs : list event) : Prop :=
  exists evs0 c0 l rest,
    evs = evs0 ++ [Ev (LocatorClick pg l) None]
    /\ Forall (fun ev => is_action ev = false) evs0
    /\ cands = c0 ++ (l :: rest)
    /\ counted evs0 = c0 ++ [l].

(** The calls [evs] counted every candidate of [cands] in order and no
    action went through. *)
Definition exhausted (cands : list locator) (evs : list event) : Prop :=
  Forall (fun ev => is_action ev = false) evs /\ counted evs = cands.







(** [m] raises nothing but subclasses of [Exception]. *)
Definition tame {A} (m : M A) : Prop :=
  forall s e s', m s = (Raise e, s') -> is_Exception e = true.

(** The outcome of [_run_single_tool] on each tool of [tools] in order,
    each run starting in the state the run before it left. *)
Fixpoint tool_runs (W : world) (url kws : string) (tools : list string) (s : state)
    : list (string * outcome (list BacklinkResult)) :=
  match tools with
  | [] => []
  | t :: rest =>
      let '(r, s1) := _run_single_tool W t url kws s in
      (t, r) :: tool_runs W url kws rest s1
  end.

(** The state after those runs. *)
Fixpoint after_tools (W : world) (url kws : string) (tools : list string) (s : state)
    : state :=
  match tools with
  | [] => s
  | t :: rest => after_tools W url kws rest (snd (_run_single_tool W t url kws s))
  end.

(** The runs that returned, with the records each returned. *)
Definition produced (runs : list (string * outcome (list BacklinkResult)))
    : list (string * list BacklinkResult) :=
  omap (fun run => match snd run with
                   | Return recs => Some (fst run, recs)
                   | Raise _ => None
                   end) runs.

(** A record of the tool [t] for the target [url] with [kws]. *)
Definition record_of (url kws t : string) (r : BacklinkResult) : Prop :=
  target_url r = url /\ keywords r = kws /\ tool_url r = t.

(** A web of two tools: navigation to the first fails, the second shows two links. *)
Definition two_tools_web : world :=
  web_with_dead_tool "http://dead.example/" "http://live.example/tool"
    ["http://x.example/1"; "http://y.example/2"].

Definition two_tools_runner : state :=
  runner_with ["http://dead.example/"; "http://live.example/tool"].

(** * Properties *)

(** ** The monad *)

Lemma bind_Return {A B} (m : M A) (f : A -> M B) s a s' :
  m s = (Return a, s') -> (m ≫= f) s = f a s'.
Proof. intros H. unfold mbind, M_bind. now rewrite H. Qed.

Lemma bind_Raise {A B} (m : M A) (f : A -> M B) s e s' :
  m s = (Raise e, s') -> (m ≫= f) s = (Raise e, s').
Proof. intros H. unfold mbind, M_bind. now rewrite H. Qed.

Lemma bind_inv {A B} (m : M A) (f : A -> M B) s r s' :
  (m ≫= f) s = (r, s') ->
  (exists a s1, m s = (Return a, s1) /\ f a s1 = (r, s'))
  \/ (exists e, m s = (Raise e, s') /\ r = Raise e).
Proof.
  unfold mbind, M_bind. destruct (m s) as [[a|e] s1]; intros H.
  - left. eauto.
  - right. inversion H; subst. eauto.
Qed.

Lemma state_eta s :
  State (self_per_tool_timeout_ms s) (self_tools s) (trace s) = s.
Proof. now destruct s. Qed.

Lemma emits_here {A} (P : event -> Prop) (m : M A) :
  (forall s, snd (m s) = s) -> emits P m.
Proof.
  intros H s. exists []. rewrite H, app_nil_r, state_eta. split; [reflexivity | constructor].
Qed.

Lemma emits_ret {A} P (a : A) : emits P (mret a).
Proof. now apply emits_here. Qed.

Lemma emits_lift {A} P (r : outcome A) : emits P (lift r).
Proof. now apply emits_here. Qed.

Lemma emits_get_tools P : emits P get_tools.
Proof. now apply emits_here. Qed.

Lemma emits_get_timeout P : emits P get_per_tool_timeout_ms.
Proof. now apply emits_here. Qed.

Lemma emits_perform W P o :
  (forall err, P (Ev o err)) -> emits P (perform W o).
Proof.
  intros HP s. unfold perform.
  destruct (answer W (trace s) o) as [a|e]; simpl;
    eexists [_]; (split; [reflexivity | repeat constructor; apply HP]).
Qed.

Lemma emits_chain P (s s1 s2 : state) evs1 :
  s1 = State (self_per_tool_timeout_ms s) (self_tools s) (trace s ++ evs1) ->
  Forall P evs1 ->
  (exists evs2, s2 = State (self_per_tool_timeout_ms s1) (self_tools s1) (trace s1 ++ evs2)
                /\ Forall P evs2) ->
  exists evs, s2 = State (self_per_tool_timeout_ms s) (self_tools s) (trace s ++ evs)
              /\ Forall P evs.
Proof.
  intros -> H1 (evs2 & -> & H2). exists (evs1 ++ evs2). simpl.
  rewrite app_assoc. split; [reflexivity | now apply Forall_app].
Qed.

Lemma emits_bind {A B} P (m : M A) (f : A -> M B) :
  emits P m -> (forall a, emits P (f a)) -> emits P (m ≫= f).
Proof.
  intros Hm Hf s. destruct (Hm s) as (evs1 & E1 & F1).
  unfold mbind, M_bind. destruct (m s) as [[a|e] s1]; simpl in E1.
  - eapply emits_chain; [exact E1 | exact F1 | apply (Hf a s1)].
  - exists evs1. now split.
Qed.

Lemma emits_try_except {A} P (body handler : M A) catches :
  emits P body -> emits P handler -> emits P (try_except body catches handler).
Proof.
  intros Hb Hh s. destruct (Hb s) as (evs1 & E1 & F1).
  unfold try_except. destruct (body s) as [[a|e] s1]; simpl in E1.
  - exists evs1. now split.
  - destruct (catches e).
    + eapply emits_chain; [exact E1 | exact F1 | apply (Hh s1)].
    + exists evs1. now split.
Qed.

Lemma emits_try_finally {A} P (body : M A) (final : M unit) :
  emits P body -> emits P final -> emits P (try_finally body final).
Proof.
  intros Hb Hf s. destruct (Hb s) as (evs1 & E1 & F1).
  unfold try_finally. destruct (body s) as [r s1]; simpl in E1.
  eapply emits_chain; [exact E1 | exact F1 |].
  destruct (Hf s1) as (evs2 & E2 & F2). exists evs2.
  destruct (final s1) as [[[]|e] s2]; simpl in *; now split.
Qed.

Lemma emits_mono {A} (P Q : event -> Prop) (m : M A) :
  (forall ev, P ev -> Q ev) -> emits P m -> emits Q m.
Proof.
  intros HPQ Hm s. destruct (Hm s) as (evs & E & F).
  exists evs. split; [exact E | eapply Forall_impl; eauto].
Qed.

(** ** The selectors sent to the browser *)

Example xpath_of_one_hint :
  Selector.text (field_xpath ["url"])
  = "xpath=(//input[(contains(translate(@placeholder,'ABCDEFGHIJKLMNOPQRSTUVWXYZ','abcdefghijklmnopqrstuvwxyz'), 'url') or contains(translate(@name,'ABCDEFGHIJKLMNOPQRSTUVWXYZ','abcdefghijklmnopqrstuvwxyz'), 'url') or contains(translate(@id,'ABCDEFGHIJKLMNOPQRSTUVWXYZ','abcdefghijklmnopqrstuvwxyz'), 'url') or contains(translate(@aria-label,'ABCDEFGHIJKLMNOPQRSTUVWXYZ','abcdefghijklmnopqrstuvwxyz'), 'url'))] | //textarea[(contains(translate(@placeholder,'ABCDEFGHIJKLMNOPQRSTUVWXYZ','abcdefghijklmnopqrstuvwxyz'), 'url') or contains(translate(@name,'ABCDEFGHIJKLMNOPQRSTUVWXYZ','abcdefghijklmnopqrstuvwxyz'), 'url') or contains(translate(@id,'ABCDEFGHIJKLMNOPQRSTUVWXYZ','abcdefghijklmnopqrstuvwxyz'), 'url') or contains(translate(@aria-label,'ABCDEFGHIJKLMNOPQRSTUVWXYZ','abcdefghijklmnopqrstuvwxyz'), 'url'))])[1]".
Proof. reflexivity. Qed.

Example selectors_of_submit :
  Selector.text submit_typed_first = "input[type=submit], button[type=submit]"
  /\ Selector.text (button_has_text_first "go") = "button:has-text('go')"
  /\ Selector.text (input_value_first "go")
     = "input[type=button][value*='go'], input[value*='go']".
Proof. repeat split. Qed.

(** ** What each method writes *)

Create HintDb emits discriminated.

#[local] Hint Resolve emits_ret emits_lift emits_get_tools emits_get_timeout : emits.

Ltac emits_step :=
  first
    [ solve [auto 1 with emits nocore]
    | match goal with
      | |- emits _ (perform ?W ?o) =>
          apply (emits_perform W _ o); intros; first [exact I | (red; reflexivity)]
      end
    | apply emits_bind; [| intros ?]
    | apply emits_try_except
    | apply emits_try_finally
    | match goal with
      | |- emits _ (match ?x with _ => _ end) => destruct x
      | |- emits _ (if ?x then _ else _) => destruct x
      end ].

Ltac emits_tac := repeat emits_step.

Section Emits.
Variable W : world.

Lemma emits_label_hit pg kw : emits on_page (label_hit W pg kw).
Proof. unfold label_hit. emits_tac. Qed.

Lemma emits_label_loop pg kws : emits on_page (label_loop W pg kws).
Proof.
  induction kws as [|kw rest IH]; simpl; [emits_tac|].
  apply emits_bind; [apply emits_label_hit | intros []; [emits_tac | exact IH]].
Qed.

Lemma emits_find_best_field pg kws : emits on_page (_find_best_field W pg kws).
Proof.
  unfold _find_best_field. apply emits_bind; [apply emits_label_loop|].
  intros [l|]; emits_tac.
Qed.

Lemma emits_click_if_present pg l : emits on_page (click_if_present W pg l).
Proof. unfold click_if_present. emits_tac. Qed.

Lemma emits_button_loop pg texts : emits on_page (button_loop W pg texts).
Proof.
  induction texts as [|txt rest IH]; simpl; [emits_tac|].
  repeat (apply emits_bind; [apply emits_click_if_present | intros []; [emits_tac|]]).
  exact IH.
Qed.

Lemma emits_click_submit pg : emits on_page (_click_submit W pg).
Proof.
  unfold _click_submit.
  apply emits_bind; [apply emits_click_if_present | intros []; [emits_tac|]].
  apply emits_bind; [apply emits_button_loop | intros []; emits_tac].
Qed.

Lemma emits_wait_for_results pg : emits on_page (_wait_for_results W pg).
Proof. unfold _wait_for_results. emits_tac. Qed.

Lemma emits_anchor_link pg host a : emits on_page (anchor_link W pg host a).
Proof. unfold anchor_link. emits_tac. Qed.

Lemma emits_anchors_loop pg host found anchors :
  emits on_page (anchors_loop W pg host found anchors).
Proof.
  revert found. induction anchors as [|a rest IH]; intros found; simpl; [emits_tac|].
  apply emits_bind; [apply emits_anchor_link | intros [l|]; apply IH].
Qed.

Lemma emits_extract_links pg : emits on_page (_extract_links W pg).
Proof.
  unfold _extract_links.
  do 3 (apply emits_bind; [emits_tac | intros ?]).
  destruct a1; [|emits_tac].
  apply emits_bind; [apply emits_anchors_loop | intros; emits_tac].
Qed.

#[local] Hint Resolve emits_find_best_field emits_click_submit
  emits_wait_for_results emits_extract_links : emits.

Lemma emits_after_goto pg tool_url target_url keywords :
  emits on_page (after_goto W pg tool_url target_url keywords).
Proof. unfold after_goto. emits_tac. Qed.

Lemma emits_close pg :
  emits on_page (try_except (perform W (PageClose pg)) is_Exception (mret tt)).
Proof. emits_tac. Qed.

Lemma run_single_tool_unfold tool_url target_url keywords :
  _run_single_tool W tool_url target_url keywords
  = (pg ← perform W ContextNewPage;
     ms ← get_per_tool_timeout_ms;
     perform W (PageSetDefaultTimeout pg ms);;
     try_finally
       (perform W (PageGoto pg tool_url);; after_goto W pg tool_url target_url keywords)
       (try_except (perform W (PageClose pg)) is_Exception (mret tt))).
Proof. reflexivity. Qed.

Lemma snd_try_finally {A} (body : M A) (final : M unit) s :
  snd (try_finally body final s) = snd (final (snd (body s))).
Proof.
  unfold try_finally. destruct (body s) as [r s1]. simpl.
  destruct (final s1) as [[[]|e] s2]; reflexivity.
Qed.

Lemma perform_bind {B} o (k : ans o -> M B) s :
  (x ← perform W o; k x) s
  = match answer W (trace s) o with
    | Return a => k a (log (Ev o None) s)
    | Raise e => (Raise e, log (Ev o (Some e)) s)
    end.
Proof.
  unfold mbind, M_bind, perform. destruct (answer W (trace s) o); reflexivity.
Qed.

Lemma get_timeout_bind {B} (k : Z -> M B) s :
  (ms ← get_per_tool_timeout_ms; k ms) s = k (self_per_tool_timeout_ms s) s.
Proof. reflexivity. Qed.

(** The navigation and what follows it: the [goto] call, then calls on the
    loaded page only. *)
Lemma goto_then_on_page pg tool_url target_url keywords s :
  exists err evs,
    snd (try_finally
           (perform W (PageGoto pg tool_url);; after_goto W pg tool_url target_url keywords)
           (try_except (perform W (PageClose pg)) is_Exception (mret tt)) s)
    = ext s (Ev (PageGoto pg tool_url) err :: evs)
    /\ Forall on_page evs.
Proof.
  rewrite snd_try_finally, perform_bind.
  destruct (answer W (trace s) (PageGoto pg tool_url)) as [[]|e].
  - destruct (emits_after_goto pg tool_url target_url keywords
                (log (Ev (PageGoto pg tool_url) None) s)) as (evs1 & E1 & F1).
    destruct (after_goto W pg tool_url target_url keywords _) as [r s1]. simpl in E1.
    destruct (emits_close pg s1) as (evs2 & E2 & F2).
    exists None, (evs1 ++ evs2). cbn [snd]. split; [|now apply Forall_app].
    etransitivity; [exact E2|]. rewrite E1. unfold ext, log. simpl.
    now rewrite <- !app_assoc.
  - cbn [snd]. destruct (emits_close pg (log (Ev (PageGoto pg tool_url) (Some e)) s))
      as (evs2 & E2 & F2).
    exists (Some e), evs2. split; [|exact F2].
    etransitivity; [exact E2|]. unfold ext, log. simpl.
    now rewrite <- !app_assoc.
Qed.

Lemma pages_opened_app evs1 evs2 :
  pages_opened (evs1 ++ evs2) = pages_opened evs1 + pages_opened evs2.
Proof. unfold pages_opened. now rewrite List.filter_app, length_app. Qed.

Lemma pages_opened_none evs : Forall on_page evs -> pages_opened evs = 0.
Proof.
  unfold pages_opened. induction 1 as [|ev evs Hev F IH]; simpl; [reflexivity|].
  unfold on_page, is_entry in Hev. unfold is_new_page.
  destruct (ev_op ev); try discriminate Hev; exact IH.
Qed.

Lemma navigations_app evs1 evs2 :
  navigations (evs1 ++ evs2) = navigations evs1 ++ navigations evs2.
Proof. apply omap_app. Qed.

Lemma navigations_none evs : Forall on_page evs -> navigations evs = [].
Proof.
  unfold navigations. induction 1 as [|ev evs Hev F IH]; simpl; [reflexivity|].
  unfold on_page, is_entry in Hev.
  destruct (ev_op ev); try discriminate Hev; exact IH.
Qed.

(** One run of a tool opens one page, and navigates to the tool once the
    page is there. *)
Lemma run_single_tool_trace tool_url target_url keywords s :
  exists evs,
    snd (_run_single_tool W tool_url target_url keywords s) = ext s evs
    /\ pages_opened evs = 1
    /\ (opens_pages W -> navigations evs = [tool_url]).
Proof.
  rewrite run_single_tool_unfold, (perform_bind ContextNewPage).
  destruct (answer W (trace s) ContextNewPage) as [pg|e] eqn:Epg.
  - rewrite get_timeout_bind, (perform_bind (PageSetDefaultTimeout pg _)).
    destruct (answer W _ (PageSetDefaultTimeout pg _)) as [[]|e] eqn:Ems.
    + destruct (goto_then_on_page pg tool_url target_url keywords
                  (log (Ev (PageSetDefaultTimeout pg (self_per_tool_timeout_ms s)) None)
                     (log (Ev ContextNewPage None) s))) as (err & evs & E & F).
      exists (Ev ContextNewPage None
              :: Ev (PageSetDefaultTimeout pg (self_per_tool_timeout_ms s)) None
              :: Ev (PageGoto pg tool_url) err :: evs).
      split; [|split].
      * simpl in *. rewrite E. unfold ext, log. simpl. now rewrite <- !app_assoc.
      * change (pages_opened ([Ev ContextNewPage None]
                  ++ [Ev (PageSetDefaultTimeout pg (self_per_tool_timeout_ms s)) None;
                      Ev (PageGoto pg tool_url) err] ++ evs) = 1).
        rewrite !pages_opened_app, (pages_opened_none _ F). reflexivity.
      * intros _.
        change (navigations ([Ev ContextNewPage None;
                  Ev (PageSetDefaultTimeout pg (self_per_tool_timeout_ms s)) None;
                  Ev (PageGoto pg tool_url) err] ++ evs) = [tool_url]).
        rewrite navigations_app, (navigations_none _ F). reflexivity.
    + exists [Ev ContextNewPage None;
              Ev (PageSetDefaultTimeout pg (self_per_tool_timeout_ms s)) (Some e)].
      split; [|split; [reflexivity|]].
      * simpl. unfold ext, log. simpl. now rewrite <- !app_assoc.
      * intros [_ H]. simpl in Ems. rewrite H in Ems. discriminate.
  - exists [Ev ContextNewPage (Some e)]. split; [reflexivity | split; [reflexivity|]].
    intros [H _]. destruct (H (trace s)) as [pg Hpg]. rewrite Hpg in Epg. discriminate.
Qed.

Lemma emits_run_single_tool tool_url target_url keywords :
  emits (fun _ => True) (_run_single_tool W tool_url target_url keywords).
Proof.
  intros s. destruct (run_single_tool_trace tool_url target_url keywords s) as (evs & E & _).
  exists evs. split; [exact E | apply Forall_forall; trivial].
Qed.

Lemma emits_tools_loop url kws results tools :
  emits (fun _ => True) (tools_loop W url kws results tools).
Proof.
  revert results. induction tools as [|t rest IH]; intros results; simpl; [emits_tac|].
  apply emits_bind; [| intros; apply IH].
  apply emits_try_except; [|emits_tac].
  apply emits_bind; [apply emits_run_single_tool | intros; emits_tac].
Qed.

Lemma emits_run_for_target url kws : emits (fun _ => True) (run_for_target W url kws).
Proof.
  unfold run_for_target. apply emits_bind; [emits_tac | intros; apply emits_tools_loop].
Qed.

Lemma emits_shutdown : emits (fun _ => True) (shutdown W).
Proof. unfold shutdown. emits_tac. Qed.

Lemma emits_teardown : emits (fun _ => True) (teardown W).
Proof. unfold teardown. apply emits_try_except; [apply emits_shutdown | emits_tac]. Qed.

Lemma emits_targets_loop results targets :
  emits (fun _ => True) (targets_loop W results targets).
Proof.
  revert results. induction targets as [|[url kws] rest IH]; intros results; simpl; [emits_tac|].
  apply emits_bind; [| intros [r|]; [apply IH | emits_tac]].
  apply emits_try_except; [|emits_tac].
  apply emits_bind; [apply emits_run_for_target | intros; emits_tac].
Qed.

Lemma emits_process_targets targets : emits (fun _ => True) (process_targets W targets).
Proof.
  unfold process_targets.
  apply emits_try_finally; [apply emits_targets_loop | apply emits_teardown].
Qed.

End Emits.

Lemma emits_tools {A} P (m : M A) s : emits P m -> self_tools (snd (m s)) = self_tools s.
Proof. intros H. destruct (H s) as (evs & -> & _). reflexivity. Qed.

(** ** Deduplication *)

Lemma dedupe_loop_acc seen acc l :
  dedupe_loop seen acc l = acc ++ dedupe_loop seen [] l.
Proof.
  revert seen acc. induction l as [|u l IH]; intros seen acc; simpl.
  - now rewrite app_nil_r.
  - case_decide; [apply IH|].
    rewrite IH, (IH _ ([] ++ [u])). now rewrite <- app_assoc.
Qed.

Lemma dedupe_loop_cons seen u l :
  dedupe_loop seen [] (u :: l) =
  if decide (u ∈ seen) then dedupe_loop seen [] l
  else u :: dedupe_loop ({[u]} ∪ seen) [] l.
Proof. simpl. case_decide; [reflexivity|]. now rewrite dedupe_loop_acc. Qed.

Lemma elem_of_dedupe_loop seen l x :
  x ∈ dedupe_loop seen [] l <-> (x ∈ l) /\ (x ∉ seen).
Proof.
  revert seen. induction l as [|u l IH]; intros seen.
  - simpl. set_solver.
  - rewrite dedupe_loop_cons. case_decide.
    + rewrite IH. set_solver.
    + rewrite elem_of_cons, IH. destruct (decide (x = u)); set_solver.
Qed.

Lemma NoDup_dedupe_loop seen l : NoDup (dedupe_loop seen [] l).
Proof.
  revert seen. induction l as [|u l IH]; intros seen.
  - constructor.
  - rewrite dedupe_loop_cons. case_decide; [apply IH|].
    constructor; [|apply IH]. rewrite elem_of_dedupe_loop. set_solver.
Qed.

Lemma sublist_dedupe_loop seen l : dedupe_loop seen [] l `sublist_of` l.
Proof.
  revert seen. induction l as [|u l IH]; intros seen.
  - constructor.
  - rewrite dedupe_loop_cons. case_decide.
    + apply sublist_cons, IH.
    + apply sublist_skip, IH.
Qed.

(** When [x] comes before [y] in the result, the first [x] of the input
    comes before every [y] of the input. *)
Lemma dedupe_loop_order seen l l1 x l2 y l3 :
  dedupe_loop seen [] l = l1 ++ (x :: (l2 ++ (y :: l3))) ->
  exists k1 k2, l = k1 ++ (x :: k2) /\ (x ∉ k1) /\ (y ∉ k1).
Proof.
  revert seen l1. induction l as [|u l IH]; intros seen l1 H.
  - simpl in H. now destruct l1.
  - rewrite dedupe_loop_cons in H. case_decide as Hu.
    + assert (Hx : x ∈ dedupe_loop seen [] l) by (rewrite H; set_solver).
      assert (Hy : y ∈ dedupe_loop seen [] l) by (rewrite H; set_solver).
      apply elem_of_dedupe_loop in Hx, Hy.
      destruct (IH _ _ H) as (k1 & k2 & -> & Hx1 & Hy1).
      exists (u :: k1), k2. set_solver.
    + destruct l1 as [|u' l1]; simpl in H; inversion H; subst.
      * exists [], l. set_solver.
      * assert (Hx : x ∈ dedupe_loop ({[u']} ∪ seen) [] l)
          by (rewrite H2; set_solver).
        assert (Hy : y ∈ dedupe_loop ({[u']} ∪ seen) [] l)
          by (rewrite H2; set_solver).
        apply elem_of_dedupe_loop in Hx, Hy.
        destruct (IH _ _ H2) as (k1 & k2 & -> & Hx1 & Hy1).
        exists (u' :: k1), k2. set_solver.
Qed.

Lemma dedupe_loop_fixed seen l :
  NoDup l -> (forall x, x ∈ l -> x ∉ seen) -> dedupe_loop seen [] l = l.
Proof.
  revert seen. induction l as [|u l IH]; intros seen Hnd Hs; [reflexivity|].
  rewrite dedupe_loop_cons. apply NoDup_cons in Hnd as [Hu Hnd].
  rewrite decide_False by set_solver.
  f_equal. apply IH; [exact Hnd|]. set_solver.
Qed.

Lemma dedupe_idempotent l : dedupe (dedupe l) = dedupe l.
Proof.
  unfold dedupe. apply dedupe_loop_fixed; [apply NoDup_dedupe_loop | set_solver].
Qed.

Lemma elem_of_drop_duplicates_loop seen rows r :
  r ∈ drop_duplicates_loop seen rows -> (r ∈ rows) /\ (backlink_url r ∉ seen).
Proof.
  revert seen. induction rows as [|r0 rows IH]; intros seen; simpl.
  - set_solver.
  - case_decide.
    + intros H'. apply IH in H'. set_solver.
    + rewrite elem_of_cons. intros [->|H']; [set_solver|].
      apply IH in H'. set_solver.
Qed.

Lemma NoDup_drop_duplicates_loop seen rows :
  NoDup (map backlink_url (drop_duplicates_loop seen rows)).
Proof.
  revert seen. induction rows as [|r0 rows IH]; intros seen; simpl.
  - constructor.
  - case_decide; [apply IH|]. simpl. constructor; [|apply IH].
    rewrite list_elem_of_fmap. intros (r & Hk & Hr).
    apply elem_of_drop_duplicates_loop in Hr. set_solver.
Qed.

Lemma drop_duplicates_loop_fixed seen rows :
  NoDup (map backlink_url rows) ->
  (forall r, r ∈ rows -> backlink_url r ∉ seen) ->
  drop_duplicates_loop seen rows = rows.
Proof.
  revert seen. induction rows as [|r0 rows IH]; intros seen Hnd Hs; [reflexivity|].
  simpl in *. apply NoDup_cons in Hnd as [Hu Hnd].
  rewrite decide_False by set_solver.
  f_equal. apply IH; [exact Hnd|].
  intros r Hr. rewrite list_elem_of_fmap in Hu. set_solver.
Qed.

Lemma drop_duplicates_covers seen rows r :
  r ∈ rows -> backlink_url r ∉ seen ->
  exists r', (r' ∈ drop_duplicates_loop seen rows) /\ backlink_url r' = backlink_url r.
Proof.
  revert seen. induction rows as [|r0 rows IH]; intros seen Hr Hs; [set_solver|].
  simpl. apply elem_of_cons in Hr as [->|Hr].
  - rewrite decide_False by exact Hs. exists r0. set_solver.
  - case_decide; [now apply IH|].
    destruct (decide (backlink_url r = backlink_url r0)) as [E|E].
    + exists r0. set_solver.
    + destruct (IH ({[backlink_url r0]} ∪ seen) Hr) as (r' & H1 & H2); [set_solver|].
      exists r'. set_solver.
Qed.

(** ** The tool catalog *)

Lemma init_sets_tools W headless sec s :
  match __init__ W headless sec s with
  | (Return _, s') => self_tools s' = dedupe raw_tools
  | (Raise _, s') => self_tools s' = self_tools s
  end.
Proof.
  unfold __init__, mbind, M_bind, set_per_tool_timeout_ms, set_tools, perform. simpl.
  repeat match goal with
         | |- context [answer W ?h ?o] => destruct (answer W h o); simpl
         end; reflexivity.
Qed.

(** C5: for every raw list the deduplicated catalog holds each URL of the
    list exactly once, in the order of first occurrence: it is a
    subsequence of the raw list without repetition, it has the same
    members, and when [x] precedes [y] in it the first [x] of the raw list
    precedes every [y].  [__init__] stores the deduplicated [raw_tools]
    (34 URLs out of 35) and no method run afterwards ([run_for_target],
    [shutdown], the processing of all targets) changes the stored catalog. *)
Theorem tool_catalog_deduplicated :
  (forall raw : list string,
      NoDup (dedupe raw)
      /\ (forall u, u ∈ dedupe raw <-> u ∈ raw)
      /\ dedupe raw `sublist_of` raw
      /\ (forall l1 x l2 y l3,
             dedupe raw = l1 ++ (x :: (l2 ++ (y :: l3))) ->
             exists k1 k2, raw = k1 ++ (x :: k2) /\ (x ∉ k1) /\ (y ∉ k1)))
  /\ (_load_tools = dedupe raw_tools /\ length raw_tools = 35 /\ length _load_tools = 34)
  /\ (forall W headless sec s,
         match __init__ W headless sec s with
         | (Return _, s') => self_tools s' = _load_tools
         | (Raise _, s') => self_tools s' = self_tools s
         end)
  /\ (forall W url kws s, self_tools (snd (run_for_target W url kws s)) = self_tools s)
  /\ (forall W s, self_tools (snd (shutdown W s)) = self_tools s)
  /\ (forall W targets s, self_tools (snd (process_targets W targets s)) = self_tools s).
Proof.
  split; [|split; [|split; [|split; [|split]]]].
  - intros raw. unfold dedupe. split; [apply NoDup_dedupe_loop|].
    split; [intros u; rewrite elem_of_dedupe_loop; set_solver|].
    split; [apply sublist_dedupe_loop|].
    intros l1 x l2 y l3. apply dedupe_loop_order.
  - split; [reflexivity|]. split; [reflexivity | vm_compute; reflexivity].
  - intros W headless sec s. apply init_sets_tools.
  - intros W url kws s. eapply emits_tools, emits_run_for_target.
  - intros W s. eapply emits_tools, emits_shutdown.
  - intros W targets s. eapply emits_tools, emits_process_targets.
Qed.

(** In [u, v, u, w] the first [v] comes before every [w]. *)
Lemma tool_catalog_deduplicated_witness :
  exists k1 k2, ["u"; "v"; "u"; "w"] = k1 ++ ("v" :: k2) /\ ("v" ∉ k1) /\ ("w" ∉ k1).
Proof.
  apply (proj2 (proj2 (proj2 (proj1 tool_catalog_deduplicated ["u"; "v"; "u"; "w"])))
           ["u"] "v" [] "w" []).
  vm_compute. reflexivity.
Defined.

(** ** Deduplication of the collected records *)

(** C9: dropping the records whose [backlink_url] was already seen is
    idempotent.  The result has one record for each [backlink_url] of the
    input, the first one, whichever tool produced it; the same holds of the
    deduplication of the links of one page. *)
Theorem drop_duplicates_idempotent :
  (forall rows, drop_duplicates (drop_duplicates rows) = drop_duplicates rows)
  /\ (forall rows, NoDup (map backlink_url (drop_duplicates rows)))
  /\ (forall rows r, r ∈ rows ->
        exists r', (r' ∈ drop_duplicates rows) /\ backlink_url r' = backlink_url r)
  /\ (forall t k tool1 tool2 link,
        drop_duplicates [mkBacklinkResult t k tool1 link; mkBacklinkResult t k tool2 link]
        = [mkBacklinkResult t k tool1 link])
  /\ (forall links, dedupe (dedupe links) = dedupe links).
Proof.
  split; [|split; [|split; [|split]]].
  - intros rows. unfold drop_duplicates. apply drop_duplicates_loop_fixed.
    + apply NoDup_drop_duplicates_loop.
    + set_solver.
  - intros rows. apply NoDup_drop_duplicates_loop.
  - intros rows r Hr. apply drop_duplicates_covers; [exact Hr | set_solver].
  - intros t k tool1 tool2 link. unfold drop_duplicates. simpl.
    rewrite decide_False by set_solver. rewrite decide_True by set_solver. reflexivity.
  - apply dedupe_idempotent.
Qed.

(** A link reported by two tools is kept once. *)
Lemma drop_duplicates_idempotent_witness :
  exists r',
    (r' ∈ drop_duplicates [mkBacklinkResult "t" "k" "tool1" "http://x.example/";
                           mkBacklinkResult "t" "k" "tool2" "http://x.example/"])
    /\ backlink_url r' = "http://x.example/".
Proof.
  apply (proj1 (proj2 (proj2 drop_duplicates_idempotent))
           [mkBacklinkResult "t" "k" "tool1" "http://x.example/";
            mkBacklinkResult "t" "k" "tool2" "http://x.example/"]
           (mkBacklinkResult "t" "k" "tool2" "http://x.example/")).
  apply list_elem_of_further, list_elem_of_here.
Defined.

(** ** Inversion of successful runs *)

Lemma bind_Return_inv {A B} (m : M A) (f : A -> M B) s b s' :
  (m ≫= f) s = (Return b, s') ->
  exists a s1, m s = (Return a, s1) /\ f a s1 = (Return b, s').
Proof.
  intros H. apply bind_inv in H as [(a & s1 & H1 & H2)|(e & _ & H2)]; [eauto | discriminate].
Qed.

Lemma try_finally_Return_inv {A} (body : M A) (final : M unit) s a s' :
  try_finally body final s = (Return a, s') ->
  exists s1, body s = (Return a, s1) /\ final s1 = (Return tt, s').
Proof.
  unfold try_finally. destruct (body s) as [r s1].
  destruct (final s1) as [[[]|e] s2] eqn:E; intros H; inversion H; subst. eauto.
Qed.

Lemma mret_inv {A} (a b : A) (s s' : state) :
  mret (M:=M) a s = (Return b, s') -> a = b /\ s = s'.
Proof. unfold mret, M_ret. intros H. inversion H. auto. Qed.


Ltac inv_bind H :=
  let a := fresh "a" in
  let s1 := fresh "s" in
  let H1 := fresh "H" in
  apply bind_Return_inv in H as (a & s1 & H1 & H); cbv beta in H.

(** ** Link extraction *)







(** C2: a destination without a scheme is not resolved by the rules of
    relative URLs but glued to the whole page address: ["a/b"] on
    ["https://h/p/q.html"] becomes ["https://h/p/q.html/a/b"] and ["/r"]
    becomes ["https://h/p/q.html/r"]; a link ["//other.com/x"] to another
    host is glued to the page address as well and then dropped as a link
    to the page's own host. *)
Theorem relative_links_are_concatenated :
  join_to_page "https://h/p/q.html" "a/b" = "https://h/p/q.html/a/b"
  /\ join_to_page "https://h/p/q.html" "/r" = "https://h/p/q.html/r"
  /\ join_to_page "https://h/p/q.html" "//other.com/x" = "https://h/p/q.html//other.com/x"
  /\ (forall pg s,
         fst (_extract_links (static_page "https://h/p/q.html" ["//other.com/x"]) pg s)
         = Return []
         /\ fst (_extract_links (static_page "https://h/p/q.html" ["https://other.com/x"]) pg s)
            = Return ["https://other.com/x"]).
Proof. repeat split; vm_compute; reflexivity. Qed.

(** ** The records of one tool *)

Lemma run_single_tool_inv W tool target kws s recs s' :
  _run_single_tool W tool target kws s = (Return recs, s') ->
  exists pg s1 s2 links,
    _extract_links W pg s1 = (Return links, s2)
    /\ recs = map (mkBacklinkResult target kws tool) links.
Proof.
  unfold _run_single_tool. intros H. inv_bind H. inv_bind H. inv_bind H.
  apply try_finally_Return_inv in H as (s3 & H & _).
  repeat inv_bind H. apply mret_inv in H as [<- _]. eauto 10.
Qed.




(** ** Teardown *)

(** C8, as the code has it: [shutdown] closes the context, the browser
    and the engine in this order and attempts each whether or not the ones
    before failed; when one of them fails [shutdown] raises to its caller
    the exception of the last that failed, and returns normally only when
    none failed.  The caller in [app.py] wraps [shutdown] in a bare
    [except], so the teardown of the application never raises and makes the
    same three calls. *)
Theorem shutdown_attempts_all_and_reraises W s :
  let e1 := err_of (answer W (trace s) ContextClose) in
  let t1 := trace s ++ [Ev ContextClose e1] in
  let e2 := err_of (answer W t1 BrowserClose) in
  let t2 := t1 ++ [Ev BrowserClose e2] in
  let e3 := err_of (answer W t2 PlaywrightStop) in
  shutdown W s
  = (last_raised e1 e2 e3,
     ext s [Ev ContextClose e1; Ev BrowserClose e2; Ev PlaywrightStop e3])
  /\ teardown W s
     = (Return tt, ext s [Ev ContextClose e1; Ev BrowserClose e2; Ev PlaywrightStop e3]).
Proof.
  unfold teardown, try_except, shutdown, try_finally, perform, ext, log. simpl.
  destruct (answer W (trace s) ContextClose) as [[]|e1]; simpl;
    destruct (answer W _ BrowserClose) as [[]|e2]; simpl;
    destruct (answer W _ PlaywrightStop) as [[]|e3]; simpl;
    rewrite <- ?app_assoc; simpl; split; reflexivity.
Qed.

(** C8 fails as stated: when the context fails to close, [shutdown] makes
    the two other calls and then raises the failure to its caller. *)
Lemma shutdown_raises_to_its_caller :
  shutdown broken_context fresh
  = (Raise PlaywrightError,
     State 0 [] [Ev ContextClose (Some PlaywrightError); Ev BrowserClose None;
                 Ev PlaywrightStop None]).
Proof. reflexivity. Qed.

(** ** Submission *)

Lemma ext_nil s : ext s [] = s.
Proof. unfold ext. now rewrite app_nil_r, state_eta. Qed.

Lemma ext_ext s evs1 evs2 : ext (ext s evs1) evs2 = ext s (evs1 ++ evs2).
Proof. unfold ext. simpl. now rewrite app_assoc. Qed.

Lemma counted_app evs1 evs2 : counted (evs1 ++ evs2) = counted evs1 ++ counted evs2.
Proof. apply omap_app. Qed.

Lemma exhausted_app c1 c2 evs1 evs2 :
  exhausted c1 evs1 -> exhausted c2 evs2 -> exhausted (c1 ++ c2) (evs1 ++ evs2).
Proof.
  intros [F1 C1] [F2 C2]. split; [now apply Forall_app|].
  now rewrite counted_app, C1, C2.
Qed.

Lemma clicked_after pg c1 c2 evs1 evs2 :
  exhausted c1 evs1 -> clicked pg c2 evs2 -> clicked pg (c1 ++ c2) (evs1 ++ evs2).
Proof.
  intros [F1 C1] (evs0 & c0 & l & rest & -> & F2 & -> & C2).
  exists (evs1 ++ evs0), (c1 ++ c0), l, rest.
  rewrite counted_app, C1, C2, <- !app_assoc.
  repeat split; try reflexivity. now apply Forall_app.
Qed.

Lemma clicked_weaken pg c1 c2 evs :
  clicked pg c1 evs -> clicked pg (c1 ++ c2) evs.
Proof.
  intros (evs0 & c0 & l & rest & -> & F & -> & C).
  exists evs0, c0, l, (rest ++ c2). rewrite <- app_assoc. simpl. auto.
Qed.

Lemma clicked_single pg l :
  clicked pg [l] [Ev (LocatorCount pg l) None; Ev (LocatorClick pg l) None].
Proof.
  exists [Ev (LocatorCount pg l) None], [], l, []. repeat split.
  repeat constructor.
Qed.

Section Submit.
Variable W : world.
Hypothesis W_tame : only_Exceptions W.

Lemma click_if_present_spec pg l s :
  exists b evs,
    click_if_present W pg l s = (Return b, ext s evs)
    /\ if b then clicked pg [l] evs else exhausted [l] evs.
Proof.
  unfold click_if_present, try_except, mbind, M_bind, perform.
  destruct (answer W (trace s) (LocatorCount pg l)) as [n|e] eqn:E.
  - destruct n as [|n]; simpl.
    + exists false, [Ev (LocatorCount pg l) None]. repeat split. repeat constructor.
    + destruct (answer W _ (LocatorClick pg l)) as [[]|e] eqn:E'; simpl.
      * exists true, [Ev (LocatorCount pg l) None; Ev (LocatorClick pg l) None].
        split; [|apply clicked_single].
        unfold ext, log. simpl. now rewrite <- app_assoc.
      * rewrite (W_tame _ _ _ E').
        exists false, [Ev (LocatorCount pg l) None; Ev (LocatorClick pg l) (Some e)].
        split; [|split; repeat constructor].
        unfold mret, M_ret, ext, log. simpl. now rewrite <- app_assoc.
  - rewrite (W_tame _ _ _ E).
    exists false, [Ev (LocatorCount pg l) (Some e)]. repeat split. repeat constructor.
Qed.

(** Run [m], which tries [c1]; when nothing was clicked go on with [k],
    which tries [c2]. *)
Lemma try_next (m k : M bool) c1 c2 pg s :
  (forall s, exists b evs,
      m s = (Return b, ext s evs) /\ if b then clicked pg c1 evs else exhausted c1 evs) ->
  (forall s, exists b evs,
      k s = (Return b, ext s evs) /\ if b then clicked pg c2 evs else exhausted c2 evs) ->
  exists b evs,
    (c ← m; match c with true => mret true | false => k end) s = (Return b, ext s evs)
    /\ if b then clicked pg (c1 ++ c2) evs else exhausted (c1 ++ c2) evs.
Proof.
  intros Hm Hk. destruct (Hm s) as (b1 & evs1 & R1 & S1).
  rewrite (bind_Return _ _ _ _ _ R1). destruct b1.
  - exists true, evs1. split; [reflexivity | now apply clicked_weaken].
  - destruct (Hk (ext s evs1)) as (b2 & evs2 & R2 & S2).
    exists b2, (evs1 ++ evs2). rewrite R2, ext_ext. split; [reflexivity|].
    destruct b2; [now apply clicked_after | now apply exhausted_app].
Qed.

Lemma button_loop_spec pg texts s :
  exists b evs,
    button_loop W pg texts s = (Return b, ext s evs)
    /\ if b then clicked pg (flat_map candidates_for texts) evs
       else exhausted (flat_map candidates_for texts) evs.
Proof.
  revert s. induction texts as [|txt rest IH]; intros s.
  - exists false, []. rewrite ext_nil. repeat split. constructor.
  - simpl button_loop. simpl flat_map.
    apply (try_next _ _ [get_by_role_button_first txt] _ pg s);
      [intros; apply click_if_present_spec | intros s1].
    apply (try_next _ _ [button_has_text_first txt] _ pg s1);
      [intros; apply click_if_present_spec | intros s2].
    apply (try_next _ _ [input_value_first txt] _ pg s2);
      [intros; apply click_if_present_spec | exact IH].
Qed.

Lemma press_enter_spec pg s :
  exists b err,
    try_except (perform W (KeyboardPress pg "Enter");; mret true) is_Exception (mret false) s
    = (Return b, ext s [Ev (KeyboardPress pg "Enter") err])
    /\ b = match err with None => true | Some _ => false end.
Proof.
  unfold try_except, mbind, M_bind, perform.
  destruct (answer W (trace s) (KeyboardPress pg "Enter")) as [[]|e] eqn:E; simpl.
  - exists true, None. split; reflexivity.
  - rewrite (W_tame _ _ _ E). exists false, (Some e). split; reflexivity.
Qed.

(** The same when what follows is not a candidate. *)
Lemma try_else (m k : M bool) c1 (Q : bool -> list event -> Prop) pg s :
  (forall s, exists b evs,
      m s = (Return b, ext s evs) /\ if b then clicked pg c1 evs else exhausted c1 evs) ->
  (forall s, exists b evs, k s = (Return b, ext s evs) /\ Q b evs) ->
  exists b evs,
    (c ← m; match c with true => mret true | false => k end) s = (Return b, ext s evs)
    /\ ((b = true /\ clicked pg c1 evs)
        \/ exists evs1 evs2, evs = evs1 ++ evs2 /\ exhausted c1 evs1 /\ Q b evs2).
Proof.
  intros Hm Hk. destruct (Hm s) as (b1 & evs1 & R1 & S1).
  rewrite (bind_Return _ _ _ _ _ R1). destruct b1.
  - exists true, evs1. split; [reflexivity | left; auto].
  - destruct (Hk (ext s evs1)) as (b2 & evs2 & R2 & S2).
    exists b2, (evs1 ++ evs2). rewrite R2, ext_ext. split; [reflexivity|].
    right. eauto.
Qed.

Lemma click_submit_spec pg s :
  exists b evs,
    _click_submit W pg s = (Return b, ext s evs)
    /\ ((b = true /\ clicked pg submit_candidates evs)
        \/ exists evs0 err,
             evs = evs0 ++ [Ev (KeyboardPress pg "Enter") err]
             /\ exhausted submit_candidates evs0
             /\ b = match err with None => true | Some _ => false end).
Proof.
  unfold _click_submit.
  destruct (try_else (click_if_present W pg submit_typed_first)
              (b ← button_loop W pg button_texts;
               match b with
               | true => mret true
               | false =>
                   try_except (perform W (KeyboardPress pg "Enter");; mret true)
                     is_Exception (mret false)
               end)
              [submit_typed_first]
              (fun b evs =>
                 (b = true /\ clicked pg (flat_map candidates_for button_texts) evs)
                 \/ exists evs1 evs2,
                      evs = evs1 ++ evs2
                      /\ exhausted (flat_map candidates_for button_texts) evs1
                      /\ exists err, evs2 = [Ev (KeyboardPress pg "Enter") err]
                                     /\ b = match err with None => true | Some _ => false end)
              pg s)
    as (b & evs & R & S).
  - intros; apply click_if_present_spec.
  - intros s1. apply try_else; [intros; apply button_loop_spec|].
    intros s2. destruct (press_enter_spec pg s2) as (b & err & R & Hb). eauto 10.
  - exists b, evs. split; [exact R|].
    destruct S as [[-> S]|(evs1 & evs2 & -> & E1 & [[-> S]|(evs3 & evs4 & -> & E2 & err & -> & ->)])].
    + left. split; [reflexivity|]. now apply (clicked_weaken _ [submit_typed_first]).
    + left. split; [reflexivity|]. now apply (clicked_after _ [submit_typed_first]).
    + right. exists (evs1 ++ evs3), err. rewrite <- app_assoc.
      split; [reflexivity|]. split; [|reflexivity].
      now apply (exhausted_app [submit_typed_first]).
Qed.

End Submit.

Lemma static_page_tame url hrefs : only_Exceptions (static_page url hrefs).
Proof. intros h o e. destruct o; simpl; discriminate. Qed.

Lemma not_action_last evs0 ev :
  Forall (fun ev => is_action ev = false) evs0 ->
  Exists (fun ev => is_action ev = true) (evs0 ++ [ev]) <-> is_action ev = true.
Proof.
  intros F. rewrite Exists_app, Exists_cons, Exists_nil. split; [|auto].
  intros [H|[H|[]]]; [|exact H].
  apply Exists_exists in H as (ev' & Hin & Ha).
  rewrite Forall_forall in F. rewrite (F _ Hin) in Ha. discriminate.
Qed.

(** C7: whatever the page answers with exceptions of class [Exception],
    [_click_submit] returns a boolean and raises nothing.  It returns
    [True] exactly when an action went through, and that action is its
    last call: either the click of the first present candidate in the fixed
    order (the submit-typed element, then for each text the role, text and
    value matches), or the Enter key after all 31 candidates were tried
    without a click.  It returns [False] only when every candidate was
    tried, none was clicked and the Enter key press itself raised. *)
Theorem click_submit_reports_action W pg s :
  only_Exceptions W ->
  exists b evs,
    _click_submit W pg s = (Return b, ext s evs)
    /\ (b = true <-> Exists (fun ev => is_action ev = true) evs)
    /\ ((b = true /\ clicked pg submit_candidates evs)
        \/ exists evs0 err,
             evs = evs0 ++ [Ev (KeyboardPress pg "Enter") err]
             /\ exhausted submit_candidates evs0
             /\ b = match err with None => true | Some _ => false end)
    /\ length submit_candidates = 31.
Proof.
  intros HW. destruct (click_submit_spec W HW pg s) as (b & evs & R & S).
  exists b, evs. split; [exact R|]. split; [|split; [exact S | reflexivity]].
  destruct S as [[-> (evs0 & c0 & l & rest & -> & F & _)]|(evs0 & err & -> & [F _] & ->)].
  - rewrite (not_action_last _ _ F). split; reflexivity.
  - rewrite (not_action_last _ _ F). destruct err; unfold is_action; simpl; tauto.
Qed.

Lemma click_submit_reports_action_witness :
  exists b evs,
    _click_submit (static_page "about:blank" []) 0 fresh = (Return b, ext fresh evs)
    /\ (b = true <-> Exists (fun ev => is_action ev = true) evs)
    /\ ((b = true /\ clicked 0 submit_candidates evs)
        \/ exists evs0 err,
             evs = evs0 ++ [Ev (KeyboardPress 0 "Enter") err]
             /\ exhausted submit_candidates evs0
             /\ b = match err with None => true | Some _ => false end)
    /\ length submit_candidates = 31.
Proof.
  apply (click_submit_reports_action (static_page "about:blank" []) 0 fresh).
  apply static_page_tame.
Defined.

(** ** Field location *)

Section Locate.
Variable W : world.
Variable pg : page.
Variable counts : locator -> outcome nat.
Hypothesis W_counts : forall h l, answer W h (LocatorCount pg l) = counts l.








End Locate.














(** ** Failures stay inside a tool *)

Lemma urlparse_raises_ValueError W u e : urlparse W u = Raise e -> e = ValueError.
Proof.
  unfold urlparse, UrlParse.urlparse.
  repeat match goal with
         | |- context [let '(_, _) := ?x in _] => destruct x
         | |- context [if ?b then _ else _] => destruct b
         end; intros H; inversion H; reflexivity.
Qed.

Lemma tame_ret {A} (a : A) : tame (mret a).
Proof. intros s e s' H. discriminate. Qed.

Lemma tame_get_tools : tame get_tools.
Proof. intros s e s' H. discriminate. Qed.

Lemma tame_get_timeout : tame get_per_tool_timeout_ms.
Proof. intros s e s' H. discriminate. Qed.

Lemma tame_urlparse W u : tame (lift (urlparse W u)).
Proof.
  intros s e s' H. unfold lift in H. inversion H as [[Hu Hs]].
  apply urlparse_raises_ValueError in Hu. now subst.
Qed.

Lemma tame_bind {A B} (m : M A) (f : A -> M B) :
  tame m -> (forall a, tame (f a)) -> tame (m ≫= f).
Proof.
  intros Hm Hf s e s' H. apply bind_inv in H as [(a & s1 & H1 & H2)|(e' & H1 & H2)].
  - eapply Hf; eauto.
  - inversion H2; subst. eapply Hm; eauto.
Qed.

Lemma tame_try_except {A} (body handler : M A) catches :
  tame body -> tame handler -> tame (try_except body catches handler).
Proof.
  intros Hb Hh s e s'. unfold try_except.
  destruct (body s) as [[a|e'] s1] eqn:E; [discriminate|].
  destruct (catches e').
  - apply Hh.
  - intros H. inversion H; subst. eapply Hb; eauto.
Qed.

Lemma tame_try_finally {A} (body : M A) (final : M unit) :
  tame body -> tame final -> tame (try_finally body final).
Proof.
  intros Hb Hf s e s'. unfold try_finally.
  destruct (body s) as [r s1] eqn:E. destruct (final s1) as [[[]|e'] s2] eqn:E'.
  - intros H. inversion H; subst. eapply Hb; eauto.
  - intros H. inversion H; subst. eapply Hf; eauto.
Qed.

Create HintDb tame discriminated.

#[local] Hint Resolve tame_ret tame_get_tools tame_get_timeout tame_urlparse : tame.

Section Tame.
Variable W : world.
Hypothesis W_tame : only_Exceptions W.

Lemma tame_perform o : tame (perform W o).
Proof.
  intros s e s'. unfold perform.
  destruct (answer W (trace s) o) eqn:E; [discriminate|].
  intros H. inversion H; subst. eapply W_tame; eauto.
Qed.

Ltac tame_step :=
  first
    [ solve [auto 1 with tame nocore]
    | match goal with
      | |- tame (perform _ ?o) => apply (tame_perform o)
      end
    | apply tame_bind; [| intros ?]
    | apply tame_try_except
    | apply tame_try_finally
    | match goal with
      | |- tame (match ?x with _ => _ end) => destruct x
      | |- tame (if ?x then _ else _) => destruct x
      end ].

Ltac tame_tac := repeat tame_step.

Lemma tame_label_loop pg kws : tame (label_loop W pg kws).
Proof.
  induction kws as [|kw rest IH]; simpl; [tame_tac|].
  apply tame_bind; [unfold label_hit; tame_tac | intros []; [tame_tac | exact IH]].
Qed.

Lemma tame_find_best_field pg kws : tame (_find_best_field W pg kws).
Proof.
  unfold _find_best_field. apply tame_bind; [apply tame_label_loop|].
  intros [l|]; tame_tac.
Qed.

Lemma tame_click_if_present pg l : tame (click_if_present W pg l).
Proof. unfold click_if_present. tame_tac. Qed.

Lemma tame_button_loop pg texts : tame (button_loop W pg texts).
Proof.
  induction texts as [|txt rest IH]; simpl; [tame_tac|].
  repeat (apply tame_bind; [apply tame_click_if_present | intros []; [tame_tac|]]).
  exact IH.
Qed.

Lemma tame_click_submit pg : tame (_click_submit W pg).
Proof.
  unfold _click_submit.
  apply tame_bind; [apply tame_click_if_present | intros []; [tame_tac|]].
  apply tame_bind; [apply tame_button_loop | intros []; tame_tac].
Qed.

Lemma tame_wait_for_results pg : tame (_wait_for_results W pg).
Proof. unfold _wait_for_results. tame_tac. Qed.

Lemma tame_anchor_link pg host a : tame (anchor_link W pg host a).
Proof. unfold anchor_link. tame_tac. Qed.

Lemma tame_anchors_loop pg host found anchors :
  tame (anchors_loop W pg host found anchors).
Proof.
  revert found. induction anchors as [|a rest IH]; intros found; simpl; [tame_tac|].
  apply tame_bind; [apply tame_anchor_link | intros [l|]; apply IH].
Qed.

Lemma tame_extract_links pg : tame (_extract_links W pg).
Proof.
  unfold _extract_links.
  do 3 (apply tame_bind; [tame_tac | intros ?]).
  destruct a1; [|tame_tac].
  apply tame_bind; [apply tame_anchors_loop | intros; tame_tac].
Qed.

#[local] Hint Resolve tame_find_best_field tame_click_submit
  tame_wait_for_results tame_extract_links : tame.

Lemma tame_run_single_tool tool_url target_url keywords :
  tame (_run_single_tool W tool_url target_url keywords).
Proof. unfold _run_single_tool. tame_tac. Qed.

End Tame.

(** ** The loop over the catalog *)

Lemma after_tools_trace W url kws tools s :
  exists evs,
    after_tools W url kws tools s = ext s evs
    /\ pages_opened evs = length tools
    /\ (opens_pages W -> navigations evs = tools).
Proof.
  revert s. induction tools as [|t rest IH]; intros s; simpl.
  - exists []. now rewrite ext_nil.
  - destruct (run_single_tool_trace W t url kws s) as (evs1 & E1 & P1 & N1).
    rewrite E1. destruct (IH (ext s evs1)) as (evs2 & E2 & P2 & N2).
    exists (evs1 ++ evs2). rewrite E2, ext_ext, pages_opened_app, P1, P2.
    split; [reflexivity | split; [reflexivity|]].
    intros HW. rewrite navigations_app, (N1 HW), (N2 HW). reflexivity.
Qed.

Lemma tool_runs_tools W url kws tools s :
  map fst (tool_runs W url kws tools s) = tools.
Proof.
  revert s. induction tools as [|t rest IH]; intros s; simpl; [reflexivity|].
  destruct (_run_single_tool W t url kws s) as [r s1]. simpl. now rewrite IH.
Qed.

Lemma produced_sublist runs : map fst (produced runs) `sublist_of` map fst runs.
Proof.
  induction runs as [|[t [recs|e]] runs IH]; simpl.
  - constructor.
  - unfold produced. simpl. apply sublist_skip, IH.
  - unfold produced. simpl. apply sublist_cons, IH.
Qed.

Lemma produced_returned runs t recs :
  (t, recs) ∈ produced runs <-> (t, Return recs) ∈ runs.
Proof.
  unfold produced. rewrite list_elem_of_omap. split.
  - intros ([t' [recs'|e]] & Hin & Heq); simpl in Heq; inversion Heq; subst. exact Hin.
  - intros Hin. exists (t, Return recs). auto.
Qed.

Lemma tool_runs_records W url kws tools s :
  Forall (fun run => Forall (record_of url kws (fst run)) (snd run))
    (produced (tool_runs W url kws tools s)).
Proof.
  revert s. induction tools as [|t rest IH]; intros s; simpl; [constructor|].
  destruct (_run_single_tool W t url kws s) as [[recs|e] s1] eqn:E;
    unfold produced; simpl; [|apply IH].
  constructor; [|apply IH]. simpl.
  apply run_single_tool_inv in E as (pg & s2 & s3 & links & _ & ->).
  apply Forall_forall. intros r Hr.
  apply list_elem_of_fmap in Hr as (l & -> & _). repeat split.
Qed.

Lemma elem_of_concat {A} (x : A) (ls : list (list A)) :
  x ∈ concat ls -> exists l, (x ∈ l) /\ (l ∈ ls).
Proof.
  induction ls as [|l ls IH]; simpl; [set_solver|].
  rewrite elem_of_app. intros [H|H]; [exists l; set_solver|].
  destruct (IH H) as (l' & H1 & H2). exists l'. set_solver.
Qed.

Lemma tools_loop_spec W url kws :
  only_Exceptions W ->
  forall tools results s,
    tools_loop W url kws results tools s
    = (Return (results ++ concat (map snd (produced (tool_runs W url kws tools s)))),
       after_tools W url kws tools s).
Proof.
  intros HW. induction tools as [|t rest IH]; intros results s; simpl.
  - now rewrite app_nil_r.
  - unfold mbind at 1, M_bind at 1, try_except, mbind at 1, M_bind at 1.
    destruct (_run_single_tool W t url kws s) as [[recs|e] s1] eqn:E; simpl.
    + rewrite IH. unfold produced. simpl. now rewrite app_assoc.
    + rewrite (tame_run_single_tool W HW _ _ _ _ _ _ E). simpl.
      rewrite IH. reflexivity.
Qed.

Lemma web_with_dead_tool_tame dead url hrefs :
  only_Exceptions (web_with_dead_tool dead url hrefs).
Proof.
  intros h o e. destruct o; simpl; try discriminate.
  destruct (String.eqb url0 dead); intros H; inversion H; reflexivity.
Qed.

(** C3: when the browser raises nothing but exceptions of class
    [Exception], [run_for_target] returns a list and raises nothing.  It
    attempts every tool of the catalog, in order, whatever happened to the
    tools before: it opens one page per tool, and when pages can be opened
    it navigates to the tools of the catalog one after the other.  What it
    returns are the records of the runs that returned, so a tool whose run
    raised contributes none, and when every run raised or returned no
    record the result is the empty list. *)
Theorem run_for_target_isolates_failures W url kws s :
  only_Exceptions W ->
  let runs := tool_runs W url kws (self_tools s) s in
  exists recs evs,
    run_for_target W url kws s = (Return recs, ext s evs)
    /\ map fst runs = self_tools s
    /\ pages_opened evs = length (self_tools s)
    /\ (opens_pages W -> navigations evs = self_tools s)
    /\ recs = concat (map snd (produced runs))
    /\ (forall r, r ∈ recs -> exists t rs, ((t, Return rs) ∈ runs) /\ (r ∈ rs))
    /\ (Forall (fun run => snd run = Return [] \/ exists e, snd run = Raise e) runs ->
        recs = []).
Proof.
  intros HW runs.
  destruct (after_tools_trace W url kws (self_tools s) s) as (evs & E & P & N).
  exists (concat (map snd (produced runs))), evs.
  split; [|split; [apply tool_runs_tools
                  | split; [exact P | split; [exact N | split; [reflexivity | split]]]]].
  - unfold run_for_target, mbind, M_bind, get_tools.
    rewrite (tools_loop_spec W url kws HW). now rewrite E.
  - intros r Hr. apply elem_of_concat in Hr as (rs & Hr & Hrs).
    apply list_elem_of_fmap in Hrs as ([t rs'] & -> & Hin).
    exists t, rs'. split; [now apply produced_returned | exact Hr].
  - intros F. subst runs. induction F as [|[t r] runs' Hr F IH]; [reflexivity|].
    unfold produced. simpl in *. destruct Hr as [->|[e ->]]; simpl; exact IH.
Qed.

Lemma web_with_dead_tool_opens dead url hrefs :
  opens_pages (web_with_dead_tool dead url hrefs).
Proof. split; [intros h; exists 0; reflexivity | reflexivity]. Qed.

(** On the two-tool web: the run returns the two records of the live tool,
    two pages were opened, and both tools were navigated to although the
    first navigation failed. *)
Lemma run_for_target_isolates_failures_witness :
  exists recs evs,
    run_for_target two_tools_web "https://me.example" "kw" two_tools_runner
    = (Return recs, ext two_tools_runner evs)
    /\ pages_opened evs = 2
    /\ navigations evs = ["http://dead.example/"; "http://live.example/tool"]
    /\ recs = concat (map snd (produced
                 (tool_runs two_tools_web "https://me.example" "kw"
                    (self_tools two_tools_runner) two_tools_runner))).
Proof.
  destruct (run_for_target_isolates_failures two_tools_web "https://me.example" "kw"
              two_tools_runner (web_with_dead_tool_tame _ _ _))
    as (recs & evs & R & _ & P & N & C & _).
  exists recs, evs. split; [exact R|]. split; [exact P|]. split; [|exact C].
  apply N, web_with_dead_tool_opens.
Defined.

(** C10: when the browser raises nothing but exceptions of class
    [Exception], what [run_for_target] returns is the concatenation, in the
    order of the catalog, of the record lists of the tools whose run
    returned; every record of a tool carries the [url] and [keywords]
    that [run_for_target] was given and that tool's catalog URL. *)
Theorem run_for_target_concatenates W url kws s :
  only_Exceptions W ->
  exists per_tool : list (string * list BacklinkResult),
    fst (run_for_target W url kws s) = Return (concat (map snd per_tool))
    /\ per_tool = produced (tool_runs W url kws (self_tools s) s)
    /\ map fst per_tool `sublist_of` self_tools s
    /\ Forall (fun run => Forall (record_of url kws (fst run)) (snd run)) per_tool.
Proof.
  intros HW. exists (produced (tool_runs W url kws (self_tools s) s)).
  split; [|split; [reflexivity | split]].
  - unfold run_for_target, mbind, M_bind, get_tools.
    now rewrite (tools_loop_spec W url kws HW).
  - rewrite <- (tool_runs_tools W url kws (self_tools s) s) at 2.
    apply produced_sublist.
  - apply tool_runs_records.
Qed.

Lemma run_for_target_concatenates_witness :
  exists per_tool : list (string * list BacklinkResult),
    fst (run_for_target two_tools_web "https://me.example" "kw" two_tools_runner)
    = Return (concat (map snd per_tool))
    /\ per_tool = produced (tool_runs two_tools_web "https://me.example" "kw"
                              (self_tools two_tools_runner) two_tools_runner)
    /\ map fst per_tool `sublist_of` self_tools two_tools_runner
    /\ Forall (fun run => Forall (record_of "https://me.example" "kw" (fst run)) (snd run))
         per_tool.
Proof.
  apply (run_for_target_concatenates two_tools_web "https://me.example" "kw"
           two_tools_runner).
  apply web_with_dead_tool_tame.
Defined.

(** The run of the two-tool web: the dead tool yields nothing, the live one
    its two links, in order. *)
Example two_tools_run :
  fst (run_for_target two_tools_web "https://me.example" "kw" two_tools_runner)
  = Return [mkBacklinkResult "https://me.example" "kw" "http://live.example/tool"
              "http://x.example/1";
            mkBacklinkResult "https://me.example" "kw" "http://live.example/tool"
              "http://y.example/2"].
Proof. vm_compute. reflexivity. Qed.

(** * Further properties *)

(** ** Target rows *)





Lemma normalize_loop_acc cleaned raw :
  normalize_loop cleaned raw = cleaned ++ normalize_loop [] raw.
Proof.
  revert cleaned. induction raw as [|t rest IH]; intros cleaned; simpl.
  - now rewrite app_nil_r.
  - destruct (PyStr.is_empty _); [apply IH|].
    rewrite IH, (IH [_]). now rewrite <- app_assoc.
Qed.

Lemma normalize_targets_cons t rest :
  normalize_targets (t :: rest)
  = if PyStr.is_empty (PyStr.strip (get_or_empty t "url")) then normalize_targets rest
    else target_dict (PyStr.strip (get_or_empty t "url"))
           (PyStr.strip (get_or_empty t "keywords")) :: normalize_targets rest.
Proof.
  unfold normalize_targets. simpl.
  destruct (PyStr.is_empty _); [reflexivity|]. now rewrite normalize_loop_acc.
Qed.







(** ** The calls made on a loaded page *)

Section Works.
Variable W : world.

Lemma works_label_loop pg kws : emits works (label_loop W pg kws).
Proof.
  induction kws as [|kw rest IH]; simpl; [emits_tac|].
  apply emits_bind; [unfold label_hit; emits_tac | intros []; [emits_tac | exact IH]].
Qed.

Lemma works_find_best_field pg kws : emits works (_find_best_field W pg kws).
Proof.
  unfold _find_best_field. apply emits_bind; [apply works_label_loop|].
  intros [l|]; emits_tac.
Qed.

Lemma works_click_if_present pg l : emits works (click_if_present W pg l).
Proof. unfold click_if_present. emits_tac. Qed.

Lemma works_button_loop pg texts : emits works (button_loop W pg texts).
Proof.
  induction texts as [|txt rest IH]; simpl; [emits_tac|].
  repeat (apply emits_bind; [apply works_click_if_present | intros []; [emits_tac|]]).
  exact IH.
Qed.

Lemma works_click_submit pg : emits works (_click_submit W pg).
Proof.
  unfold _click_submit.
  apply emits_bind; [apply works_click_if_present | intros []; [emits_tac|]].
  apply emits_bind; [apply works_button_loop | intros []; emits_tac].
Qed.

Lemma works_wait_for_results pg : emits works (_wait_for_results W pg).
Proof. unfold _wait_for_results. emits_tac. Qed.

Lemma works_anchor_link pg host a : emits works (anchor_link W pg host a).
Proof. unfold anchor_link. emits_tac. Qed.

Lemma works_anchors_loop pg host found anchors :
  emits works (anchors_loop W pg host found anchors).
Proof.
  revert found. induction anchors as [|a rest IH]; intros found; simpl; [emits_tac|].
  apply emits_bind; [apply works_anchor_link | intros [l|]; apply IH].
Qed.

Lemma works_extract_links pg : emits works (_extract_links W pg).
Proof.
  unfold _extract_links.
  do 3 (apply emits_bind; [emits_tac | intros ?]).
  destruct a1; [|emits_tac].
  apply emits_bind; [apply works_anchors_loop | intros; emits_tac].
Qed.

#[local] Hint Resolve works_find_best_field works_click_submit
  works_wait_for_results works_extract_links : emits.

Lemma works_after_goto pg tool_url target_url keywords :
  emits works (after_goto W pg tool_url target_url keywords).
Proof. unfold after_goto. emits_tac. Qed.

(** [page.close()] inside [try ... except Exception: pass]. *)
Lemma close_spec pg s :
  let err := err_of (answer W (trace s) (PageClose pg)) in
  try_except (perform W (PageClose pg)) is_Exception (mret tt) s
  = (match err with
     | Some e => if is_Exception e then Return tt else Raise e
     | None => Return tt
     end,
     ext s [Ev (PageClose pg) err]).
Proof.
  unfold try_except, perform.
  destruct (answer W (trace s) (PageClose pg)) as [[]|e]; simpl; [reflexivity|].
  destruct (is_Exception e); reflexivity.
Qed.

End Works.

(** X2: once [_run_single_tool] has its page and has set the timeout, it
    navigates, works on the page and closes the page as its last call,
    once, whatever the navigation and the work did; when the navigation
    fails no work is done; a [page.close()] that fails with an [Exception]
    does not change the outcome of the run.  When setting the timeout
    fails the run raises that failure and the page is never closed. *)
Theorem page_closed_once W tool target kws s pg :
  answer W (trace s) ContextNewPage = Return pg ->
  let ms := self_per_tool_timeout_ms s in
  let set_timeout := PageSetDefaultTimeout pg ms in
  (answer W (trace s ++ [Ev ContextNewPage None]) set_timeout = Return tt ->
   let s2 := ext s [Ev ContextNewPage None; Ev set_timeout None] in
   exists nav evs err,
     snd (_run_single_tool W tool target kws s)
     = ext s2 ([Ev (PageGoto pg tool) nav] ++ evs ++ [Ev (PageClose pg) err])
     /\ Forall works evs
     /\ (nav <> None -> evs = [])
     /\ (match err with Some e => is_Exception e = true | None => True end ->
         fst (_run_single_tool W tool target kws s)
         = fst ((perform W (PageGoto pg tool);; after_goto W pg tool target kws) s2)))
  /\ (forall e,
         answer W (trace s ++ [Ev ContextNewPage None]) set_timeout = Raise e ->
         _run_single_tool W tool target kws s
         = (Raise e, ext s [Ev ContextNewPage None; Ev set_timeout (Some e)])).
Proof.
  intros Hpg ms set_timeout. subst set_timeout ms.
  rewrite run_single_tool_unfold, (perform_bind W ContextNewPage), Hpg.
  rewrite get_timeout_bind, (perform_bind W (PageSetDefaultTimeout pg _)).
  change (trace (log (Ev ContextNewPage None) s)) with (trace s ++ [Ev ContextNewPage None]).
  change (self_per_tool_timeout_ms (log (Ev ContextNewPage None) s))
    with (self_per_tool_timeout_ms s).
  split.
  - intros Hst s2. rewrite Hst.
    assert (Es2 : log (Ev (PageSetDefaultTimeout pg (self_per_tool_timeout_ms s)) None)
                    (log (Ev ContextNewPage None) s) = s2).
    { unfold s2, ext, log. simpl. now rewrite <- app_assoc. }
    rewrite Es2. clearbody s2. clear Es2 Hst Hpg.
    unfold try_finally. rewrite (perform_bind W (PageGoto pg tool)).
    destruct (answer W (trace s2) (PageGoto pg tool)) as [[]|e].
    + destruct (works_after_goto W pg tool target kws
                  (log (Ev (PageGoto pg tool) None) s2)) as (evs & E & F).
      destruct (after_goto W pg tool target kws _) as [r s3]. simpl in E. subst s3.
      rewrite close_spec. cbv zeta.
      set (err := err_of (answer W _ (PageClose pg))).
      exists None, evs, err.
      assert (Est : forall x : state,
                 x = ext (State (self_per_tool_timeout_ms s2) (self_tools s2)
                            ((trace s2 ++ [Ev (PageGoto pg tool) None]) ++ evs))
                       [Ev (PageClose pg) err] ->
                 x = ext s2 ([Ev (PageGoto pg tool) None] ++ evs ++ [Ev (PageClose pg) err])).
      { intros x ->. unfold ext. simpl. now rewrite <- !app_assoc. }
      destruct err as [e|]; [destruct (is_Exception e) eqn:Ee|]; simpl;
        (split; [now apply Est|]); (split; [exact F|]);
        (split; [congruence|]); intros He; try reflexivity; congruence.
    + rewrite close_spec. cbv zeta.
      set (err := err_of (answer W _ (PageClose pg))).
      exists (Some e), [], err.
      destruct err as [e'|]; [destruct (is_Exception e') eqn:Ee|]; simpl;
        (split; [unfold ext, log; simpl; now rewrite <- !app_assoc|]);
        (split; [constructor|]); (split; [reflexivity|]);
        intros He; try reflexivity; congruence.
  - intros e He. rewrite He. unfold ext, log. simpl. now rewrite <- app_assoc.
Qed.

Lemma page_closed_once_witness :
  exists nav evs err,
    snd (_run_single_tool plain_tool "http://a.example/tool" "https://me.example" "kw" fresh)
    = ext (ext fresh [Ev ContextNewPage None; Ev (PageSetDefaultTimeout 0 0) None])
        ([Ev (PageGoto 0 "http://a.example/tool") nav] ++ evs ++ [Ev (PageClose 0) err])
    /\ Forall works evs.
Proof.
  destruct (proj1 (page_closed_once plain_tool "http://a.example/tool" "https://me.example"
                     "kw" fresh 0 eq_refl) eq_refl)
    as (nav & evs & err & E & F & _).
  exists nav, evs, err. split; [exact E | exact F].
Defined.

(** ** Waiting for the page to settle *)

(** X3: [_wait_for_results] waits for the idle state with the runner's
    timeout.  A timeout of that wait is swallowed: the one-second sleep
    follows as after a wait that returned, and the outcome is that of the
    sleep.  Any other exception of the wait is raised to the caller and no
    sleep is made. *)
Theorem wait_for_results_outcome W pg s :
  let wait := PageWaitForLoadState pg (self_per_tool_timeout_ms s) in
  let w := err_of (answer W (trace s) wait) in
  let sleep := answer W (trace s ++ [Ev wait w]) TimeSleep in
  _wait_for_results W pg s
  = match w with
    | Some e =>
        if is_PlaywrightTimeoutError e
        then (sleep, ext s [Ev wait w; Ev TimeSleep (err_of sleep)])
        else (Raise e, ext s [Ev wait w])
    | None => (sleep, ext s [Ev wait w; Ev TimeSleep (err_of sleep)])
    end.
Proof.
  unfold _wait_for_results. rewrite get_timeout_bind.
  unfold mbind, M_bind, try_except, perform.
  destruct (answer W (trace s) (PageWaitForLoadState pg (self_per_tool_timeout_ms s)))
    as [[]|e]; simpl.
  - destruct (answer W _ TimeSleep) as [[]|e']; simpl;
      unfold ext, log; simpl; now rewrite <- app_assoc.
  - destruct (is_PlaywrightTimeoutError e); simpl; [|reflexivity].
    destruct (answer W _ TimeSleep) as [[]|e']; simpl;
      unfold ext, log; simpl; now rewrite <- app_assoc.
Qed.

(** A page that never becomes idle still gives its links. *)
Example never_idle_run :
  fst (_wait_for_results never_idle 0 fresh) = Return tt
  /\ fst (_run_single_tool never_idle "http://a.example/" "https://me.example" "" fresh)
     = Return [].
Proof. split; vm_compute; reflexivity. Qed.

(** ** Initialization *)

(** X4: [__init__] sets the timeout to a thousand times the seconds given,
    then starts the engine, launches the browser and opens the context, in
    this order.  It stops at the first of the three calls that fails and
    raises its exception: the calls after it are not made, nothing that
    was started is closed, and the catalog is not stored.  When the three
    calls return, the catalog stored is the deduplicated list. *)
Theorem init_stops_at_first_failure W headless sec s :
  let e1 := err_of (answer W (trace s) SyncPlaywrightStart) in
  let t1 := trace s ++ [Ev SyncPlaywrightStart e1] in
  let e2 := err_of (answer W t1 (ChromiumLaunch headless)) in
  let t2 := t1 ++ [Ev (ChromiumLaunch headless) e2] in
  let e3 := err_of (answer W t2 BrowserNewContext) in
  let ms := (sec * 1000)%Z in
  __init__ W headless sec s
  = match e1, e2, e3 with
    | Some e, _, _ => (Raise e, State ms (self_tools s) t1)
    | None, Some e, _ => (Raise e, State ms (self_tools s) t2)
    | None, None, Some e =>
        (Raise e, State ms (self_tools s) (t2 ++ [Ev BrowserNewContext e3]))
    | None, None, None =>
        (Return tt, State ms _load_tools (t2 ++ [Ev BrowserNewContext None]))
    end.
Proof.
  unfold __init__, mbind, M_bind, set_per_tool_timeout_ms, set_tools, perform, log. simpl.
  destruct (answer W (trace s) SyncPlaywrightStart) as [[]|e1]; simpl; [|reflexivity].
  destruct (answer W _ (ChromiumLaunch headless)) as [[]|e2]; simpl; [|reflexivity].
  destruct (answer W _ BrowserNewContext) as [[]|e3]; simpl; reflexivity.
Qed.

(** ** Failures of link extraction *)

(** X5: when the page address parses and [page.content()] raises an
    [Exception], [_extract_links] returns the empty list after these two
    reads.  When the page address does not parse, the [ValueError] is
    raised before the content is read. *)
Theorem extract_links_without_content W pg s u :
  answer W (trace s) (PageUrl pg) = Return u ->
  (forall cur e,
      urlparse W u = Return cur ->
      answer W (trace s ++ [Ev (PageUrl pg) None]) (PageContent pg) = Raise e ->
      is_Exception e = true ->
      _extract_links W pg s
      = (Return [], ext s [Ev (PageUrl pg) None; Ev (PageContent pg) (Some e)]))
  /\ (forall e,
         urlparse W u = Raise e ->
         _extract_links W pg s = (Raise e, ext s [Ev (PageUrl pg) None])).
Proof.
  intros Hu. unfold _extract_links. rewrite (perform_bind W (PageUrl pg)), Hu. split.
  - intros cur e Hcur Hc He.
    unfold mbind, M_bind, lift, try_except, perform. rewrite Hcur. simpl.
    rewrite Hc, He. unfold ext, log. simpl. now rewrite <- app_assoc.
  - intros e He. unfold mbind, M_bind, lift. rewrite He. reflexivity.
Qed.

Lemma extract_links_without_content_witness :
  _extract_links unreadable_page 0 fresh
  = (Return [], ext fresh [Ev (PageUrl 0) None; Ev (PageContent 0) (Some PlaywrightError)]).
Proof.
  apply (proj1 (extract_links_without_content unreadable_page 0 fresh
                  "http://a.example/tool" eq_refl)
           (UrlParse.mkParseResult "http" "a.example") PlaywrightError);
    reflexivity.
Defined.

Lemma anchor_link_malformed W pg host a s :
  kept_href a -> (exists e, urlparse W (PyStr.strip a) = Raise e) ->
  exists e s', anchor_link W pg host a s = (Raise e, s').
Proof.
  intros (H1 & H2 & H3 & H4) [e He]. unfold anchor_link.
  rewrite H1, H2, H3, H4. simpl.
  unfold mbind, M_bind, lift. rewrite He. eauto.
Qed.

Lemma anchors_loop_malformed W pg host a anchors :
  a ∈ anchors -> kept_href a -> (exists e, urlparse W (PyStr.strip a) = Raise e) ->
  forall found s, exists e s', anchors_loop W pg host found anchors s = (Raise e, s').
Proof.
  intros Hin Hk Hbad. induction anchors as [|b rest IH]; [set_solver|].
  intros found s. simpl.
  destruct (anchor_link W pg host b s) as [[r|e] s1] eqn:E.
  - rewrite (bind_Return _ _ _ _ _ E).
    apply elem_of_cons in Hin as [->|Hin].
    + destruct (anchor_link_malformed W pg host b s Hk Hbad) as (e & s' & E').
      rewrite E' in E. discriminate.
    + destruct r; apply IH; exact Hin.
  - rewrite (bind_Raise _ _ _ _ _ E). eauto.
Qed.

(** X6: one anchor whose destination [urlparse] rejects makes the whole
    extraction raise: when the page address parses and the content is read,
    no link of the page is returned, whatever the other anchors are. *)
Theorem malformed_anchor_aborts_extraction W pg s u cur anchors a :
  answer W (trace s) (PageUrl pg) = Return u ->
  urlparse W u = Return cur ->
  answer W (trace s ++ [Ev (PageUrl pg) None]) (PageContent pg) = Return anchors ->
  a ∈ anchors -> kept_href a ->
  (exists e, urlparse W (PyStr.strip a) = Raise e) ->
  exists e, fst (_extract_links W pg s) = Raise e.
Proof.
  intros Hu Hcur Hc Hin Hk Hbad.
  unfold _extract_links. rewrite (perform_bind W (PageUrl pg)), Hu.
  unfold mbind at 1, M_bind at 1, lift. rewrite Hcur.
  unfold mbind at 1, M_bind at 1, try_except. rewrite (perform_bind W (PageContent pg)).
  change (trace (log (Ev (PageUrl pg) None) s)) with (trace s ++ [Ev (PageUrl pg) None]).
  rewrite Hc. unfold mret at 1, M_ret at 1.
  destruct (anchors_loop_malformed W pg (UrlParse.netloc cur) a anchors Hin Hk Hbad []
              (log (Ev (PageContent pg) None) (log (Ev (PageUrl pg) None) s)))
    as (e & s' & E).
  rewrite (bind_Raise _ _ _ _ _ E). eauto.
Qed.

Lemma malformed_anchor_aborts_extraction_witness :
  exists e, fst (_extract_links bracket_page 0 fresh) = Raise e.
Proof.
  apply (malformed_anchor_aborts_extraction bracket_page 0 fresh "http://a.example/tool"
           (UrlParse.mkParseResult "http" "a.example")
           ["http://c.example/y"; "http://[c.example/z"] "http://[c.example/z").
  - reflexivity.
  - reflexivity.
  - reflexivity.
  - apply list_elem_of_further, list_elem_of_here.
  - repeat split.
  - exists ValueError. reflexivity.
Defined.

(** ** Links without a scheme *)

#[local] Arguments String.append !s1 s2 : simpl nomatch.
#[local] Arguments Ascii.eqb : simpl never.
#[local] Arguments UrlParse.netloc_delim : simpl never.
#[local] Arguments UrlParse.unsafe_url_byte : simpl never.
#[local] Arguments UrlParse.c0_control_or_space : simpl never.
#[local] Arguments UrlParse.scheme_char : simpl never.

Lemma urlparse_unfold chk u :
  UrlParse.urlparse chk u
  = let '(sch, url) := UrlParse.split_scheme (url_normal u) in parse_split chk sch url.
Proof. reflexivity. Qed.

Lemma all_slash_led z : all_slash z -> slash_led z.
Proof.
  destruct z as [|c z]; [exact (fun _ => I)|]. unfold all_slash. simpl.
  intros H. apply andb_prop in H as [H _]. apply Ascii.eqb_eq in H. now subst.
Qed.

Lemma all_slash_cons c z : all_slash (String c z) -> c = "/"%char /\ all_slash z.
Proof.
  unfold all_slash. simpl. intros H. apply andb_prop in H as [H1 H2].
  apply Ascii.eqb_eq in H1. auto.
Qed.

Lemma rstrip_by_split p u :
  exists z, u = (PyStr.rstrip_by p u ++ z)%string /\ PyStr.forallb_chars p z = true.
Proof.
  induction u as [|a u (z & E & F)]; simpl.
  - exists ""%string. auto.
  - destruct (PyStr.rstrip_by p u) as [|b r] eqn:Er.
    + destruct (p a) eqn:Ea.
      * exists (String a z). simpl in *. rewrite Ea, F. split; [now rewrite <- E | reflexivity].
      * exists z. simpl in *. split; [now rewrite <- E | exact F].
    + exists z. simpl in *. split; [now rewrite <- E | exact F].
Qed.

Lemma filter_chars_app p a b :
  PyStr.filter_chars p (a ++ b)%string
  = (PyStr.filter_chars p a ++ PyStr.filter_chars p b)%string.
Proof.
  induction a as [|c a IH]; simpl; [reflexivity|].
  destruct (p c); simpl; now rewrite IH.
Qed.

Lemma lstrip_by_app p r s :
  match s with EmptyString => True | String c _ => p c = false end ->
  PyStr.lstrip_by p (r ++ s)%string = (PyStr.lstrip_by p r ++ s)%string.
Proof.
  intros Hs. induction r as [|a r IH]; simpl.
  - destruct s as [|c s]; [reflexivity|]. simpl. now rewrite Hs.
  - destruct (p a); [exact IH | reflexivity].
Qed.

Lemma url_normal_app r s :
  slash_led s ->
  url_normal (r ++ s)
  = (url_normal r
     ++ PyStr.filter_chars (fun a => negb (UrlParse.unsafe_url_byte a)) s)%string.
Proof.
  intros Hs. unfold url_normal. rewrite lstrip_by_app, filter_chars_app; [reflexivity|].
  destruct s as [|c s]; [exact I|]. simpl in Hs. subst c. reflexivity.
Qed.

Lemma filter_all_slash z :
  all_slash z -> PyStr.filter_chars (fun a => negb (UrlParse.unsafe_url_byte a)) z = z.
Proof.
  induction z as [|c z IH]; [reflexivity|]. intros H.
  apply all_slash_cons in H as [-> H]. simpl. now rewrite IH.
Qed.

Lemma has_char_all_slash z : all_slash z -> PyStr.has_char ":" z = false.
Proof.
  induction z as [|c z IH]; [reflexivity|]. intros H.
  apply all_slash_cons in H as [-> H]. simpl. now apply IH.
Qed.

Lemma partition_found c y s :
  PyStr.has_char c y = true ->
  PyStr.partition c (y ++ s)%string
  = let '(b, _, a) := PyStr.partition c y in (b, true, (a ++ s)%string).
Proof.
  induction y as [|d y IH]; simpl; [discriminate|].
  destruct (Ascii.eqb d c) eqn:E; simpl; [reflexivity|].
  intros H. rewrite (IH H). destruct (PyStr.partition c y) as [[b f] a]. reflexivity.
Qed.

Lemma partition_not_found c y s :
  PyStr.has_char c y = false ->
  PyStr.partition c (y ++ s)%string
  = let '(b, f, a) := PyStr.partition c s in ((y ++ b)%string, f, a).
Proof.
  induction y as [|d y IH]; simpl.
  - intros _. destruct (PyStr.partition c s) as [[b f] a]. reflexivity.
  - destruct (Ascii.eqb d c) eqn:E; simpl; [discriminate|].
    intros H. rewrite (IH H). destruct (PyStr.partition c s) as [[b f] a]. reflexivity.
Qed.

Lemma partition_absent c s :
  PyStr.has_char c s = false -> PyStr.partition c s = (s, false, ""%string).
Proof.
  induction s as [|d s IH]; simpl; [reflexivity|].
  destruct (Ascii.eqb d c); simpl; [discriminate|]. intros H. now rewrite (IH H).
Qed.

Lemma forallb_chars_app p a b :
  PyStr.forallb_chars p (a ++ b)%string
  = PyStr.forallb_chars p a && PyStr.forallb_chars p b.
Proof.
  induction a as [|c a IH]; simpl; [reflexivity|]. rewrite IH. now rewrite andb_assoc.
Qed.

(** The scheme is split off the page address and off the page address
    followed by a path in the same way. *)
Lemma split_scheme_app y z f :
  all_slash z ->
  exists sch a,
    UrlParse.split_scheme (y ++ z) = (sch, (a ++ z)%string)
    /\ UrlParse.split_scheme (y ++ String "/" f) = (sch, (a ++ String "/" f)%string).
Proof.
  intros Hz. unfold UrlParse.split_scheme.
  destruct (PyStr.has_char ":" y) eqn:Hy.
  - rewrite !(partition_found _ _ _ Hy).
    destruct (PyStr.partition ":" y) as [[b fnd] a].
    destruct b as [|c b]; [exists ""%string, y; auto|].
    destruct (true && PyStr.is_ascii_alpha c && PyStr.forallb_chars UrlParse.scheme_char (String c b));
      [exists (PyStr.lower (String c b)), a | exists ""%string, y]; auto.
  - rewrite !(partition_not_found _ _ _ Hy).
    rewrite (partition_absent _ z (has_char_all_slash z Hz)).
    exists ""%string, y. split.
    + destruct (y ++ z)%string; [reflexivity|]. reflexivity.
    + destruct (PyStr.partition ":" (String "/" f)) as [[b fnd] a] eqn:Ep.
      assert (Hb : exists b', b = String "/" b').
      { simpl in Ep. destruct (PyStr.partition ":" f) as [[b0 f0] a0].
        inversion Ep. eauto. }
      destruct Hb as [b' ->].
      destruct (y ++ String "/" b')%string as [|c w] eqn:Ew; [reflexivity|].
      rewrite <- Ew, forallb_chars_app. simpl.
      rewrite !andb_false_r. reflexivity.
Qed.

Lemma break_at_app a s :
  slash_led s ->
  fst (PyStr.break_at UrlParse.netloc_delim (a ++ s)) = fst (PyStr.break_at UrlParse.netloc_delim a).
Proof.
  intros Hs. induction a as [|c a IH]; simpl.
  - destruct s as [|d s]; [reflexivity|]. simpl in Hs. subst d. reflexivity.
  - destruct (UrlParse.netloc_delim c); [reflexivity|].
    destruct (PyStr.break_at _ (a ++ s)), (PyStr.break_at _ a). simpl in *. now rewrite IH.
Qed.

Lemma break_at_slashes z :
  all_slash z -> fst (PyStr.break_at UrlParse.netloc_delim z) = ""%string.
Proof.
  intros Hz. destruct z as [|c z]; [reflexivity|].
  apply all_slash_cons in Hz as [-> _]. reflexivity.
Qed.

Lemma parse_split_ext chk sch url1 url2 :
  PyStr.startswith url1 "//" = PyStr.startswith url2 "//" ->
  fst (UrlParse._splitnetloc url1) = fst (UrlParse._splitnetloc url2) ->
  parse_split chk sch url1 = parse_split chk sch url2.
Proof.
  intros H1 H2. unfold parse_split. rewrite H1.
  destruct (UrlParse._splitnetloc url1), (UrlParse._splitnetloc url2).
  simpl in H2. now subst.
Qed.

Lemma parse_split_no_netloc chk sch url cur :
  fst (UrlParse._splitnetloc url) = ""%string ->
  parse_split chk sch url = Return cur -> UrlParse.netloc cur = ""%string.
Proof.
  unfold parse_split. intros H.
  destruct (PyStr.startswith url "//").
  - destruct (UrlParse._splitnetloc url) as [nl rest]. simpl in H. subst nl. simpl.
    intros E. inversion E. reflexivity.
  - intros E. inversion E. reflexivity.
Qed.

Lemma startswith_two c1 c2 x y :
  PyStr.startswith (String c1 (String c2 x)) "//"
  = PyStr.startswith (String c1 (String c2 y)) "//".
Proof.
  unfold PyStr.startswith. cbn [String.prefix].
  destruct (ascii_dec "/" c1); [destruct (ascii_dec "/" c2)|]; try reflexivity.
  destruct x, y; reflexivity.
Qed.

Lemma startswith_slash c h :
  PyStr.startswith (String c h) "/" = if ascii_dec "/" c then true else false.
Proof.
  unfold PyStr.startswith. cbn [String.prefix].
  destruct (ascii_dec "/" c); [destruct h|]; reflexivity.
Qed.

Lemma parse_split_app chk sch a z f cur :
  all_slash z ->
  parse_split chk sch (a ++ z) = Return cur -> UrlParse.netloc cur <> ""%string ->
  parse_split chk sch (a ++ String "/" f) = Return cur.
Proof.
  intros Hz Hp Hne.
  destruct a as [|c1 [|c2 a]].
  - exfalso. apply Hne. eapply parse_split_no_netloc; [|exact Hp]. simpl.
    destruct z as [|z1 [|z2 z]]; try reflexivity. simpl.
    apply all_slash_cons in Hz as [_ Hz]. apply all_slash_cons in Hz as [_ Hz].
    now apply break_at_slashes.
  - exfalso. apply Hne. eapply parse_split_no_netloc; [|exact Hp]. simpl.
    destruct z as [|z1 z]; [reflexivity|]. simpl.
    apply all_slash_cons in Hz as [_ Hz]. now apply break_at_slashes.
  - rewrite <- Hp. cbn [String.append]. apply parse_split_ext; [apply startswith_two|]. simpl.
    rewrite !break_at_app; [reflexivity | now apply all_slash_led | reflexivity].
Qed.

Lemma join_to_page_shape u href :
  exists f, join_to_page u href = (PyStr.rstrip_char "/" u ++ String "/" f)%string.
Proof.
  unfold join_to_page.
  destruct href as [|c h]; [exists ""%string; reflexivity|].
  rewrite startswith_slash. destruct (ascii_dec "/" c) as [<-|Hc].
  - exists h. reflexivity.
  - exists (String c h). reflexivity.
Qed.

Lemma join_keeps_authority chk u href cur :
  UrlParse.urlparse chk u = Return cur -> UrlParse.netloc cur <> ""%string ->
  UrlParse.urlparse chk (join_to_page u href) = Return cur.
Proof.
  intros Hp Hne. destruct (join_to_page_shape u href) as [f ->].
  destruct (rstrip_by_split (Ascii.eqb "/") u) as (z & Hu & Hz).
  fold (PyStr.rstrip_char "/" u) in Hu.
  rewrite urlparse_unfold in *. rewrite Hu in Hp at 1.
  rewrite url_normal_app in Hp by (now apply all_slash_led).
  rewrite url_normal_app by reflexivity.
  rewrite filter_all_slash in Hp by exact Hz. simpl PyStr.filter_chars.
  destruct (split_scheme_app (url_normal (PyStr.rstrip_char "/" u)) z
              (PyStr.filter_chars (fun a => negb (UrlParse.unsafe_url_byte a)) f) Hz)
    as (sch & a & E1 & E2).
  rewrite E1 in Hp. rewrite E2. eapply parse_split_app; eauto.
Qed.

(** X7: gluing a destination to the page address keeps the scheme and the
    host of the page whenever the page has a host.  So, for an anchor
    without scheme on such a page, the page address is read once and the
    anchor is dropped as a link to the page's own host: no relative link,
    and no link written [//host/path], is ever reported. *)
Theorem schemeless_links_are_dropped :
  (forall chk u href cur,
      UrlParse.urlparse chk u = Return cur -> UrlParse.netloc cur <> ""%string ->
      UrlParse.urlparse chk (join_to_page u href) = Return cur)
  /\ (forall W pg s a u cur p,
         answer W (trace s) (PageUrl pg) = Return u ->
         urlparse W u = Return cur -> UrlParse.netloc cur <> ""%string ->
         kept_href a ->
         urlparse W (PyStr.strip a) = Return p -> UrlParse.scheme p = ""%string ->
         anchor_link W pg (UrlParse.netloc cur) a s
         = (Return None, ext s [Ev (PageUrl pg) None])).
Proof.
  split; [exact join_keeps_authority|].
  intros W pg s a u cur p Hu Hcur Hne (H1 & H2 & H3 & H4) Hp Hs.
  unfold anchor_link. rewrite H1, H2, H3, H4. cbn [orb].
  unfold mbind at 1, M_bind at 1, lift at 1. rewrite Hp, Hs. cbn [PyStr.is_empty].
  unfold mbind at 1, M_bind at 1, try_except. rewrite (perform_bind W (PageUrl pg)), Hu.
  unfold mret at 1, M_ret at 1.
  unfold mbind at 1, M_bind at 1, lift at 1.
  unfold urlparse in *. rewrite (join_keeps_authority _ _ _ _ Hcur Hne).
  destruct (UrlParse.netloc cur) as [|c n] eqn:En; [congruence|].
  cbn [PyStr.is_empty]. rewrite String.eqb_refl. reflexivity.
Qed.

Lemma schemeless_links_are_dropped_witness :
  UrlParse.urlparse no_bracketed_host (join_to_page "https://h/p/q.html" "//other.com/x")
  = Return (UrlParse.mkParseResult "https" "h").
Proof.
  apply (proj1 schemeless_links_are_dropped no_bracketed_host "https://h/p/q.html"
           "//other.com/x" (UrlParse.mkParseResult "https" "h")).
  - reflexivity.
  - discriminate.
Defined.

(** ** Processing all targets *)

Lemma teardown_spec W s :
  exists e1 e2 e3, teardown W s = (Return tt, ext s (shutdown_calls e1 e2 e3)).
Proof.
  unfold teardown, try_except, shutdown, try_finally, perform, shutdown_calls, ext, log.
  simpl.
  destruct (answer W (trace s) ContextClose) as [[]|e1]; simpl;
    destruct (answer W _ BrowserClose) as [[]|e2]; simpl;
    destruct (answer W _ PlaywrightStop) as [[]|e3]; simpl;
    rewrite <- ?app_assoc; simpl; eauto.
Qed.

(** X8: however the processing of the targets ends, with a result or with
    an exception, even a keyboard interrupt, the three calls of [shutdown]
    are the last calls made, and their failures never change the outcome
    of the processing. *)
Theorem process_targets_always_shuts_down W targets s :
  exists evs e1 e2 e3,
    snd (process_targets W targets s) = ext s (evs ++ shutdown_calls e1 e2 e3)
    /\ fst (process_targets W targets s) = fst (targets_loop W [] targets s).
Proof.
  unfold process_targets, try_finally.
  destruct (emits_targets_loop W [] targets s) as (evs & E & _).
  destruct (targets_loop W [] targets s) as [r s1]. simpl in E.
  destruct (teardown_spec W s1) as (e1 & e2 & e3 & T). rewrite T.
  exists evs, e1, e2, e3. simpl. subst s1. split; [apply ext_ext | reflexivity].
Qed.





(** ** Interruption *)

Lemma tools_loop_prefix W url kws before rest results s :
  caught (tool_runs W url kws before s) ->
  tools_loop W url kws results (before ++ rest) s
  = tools_loop W url kws
      (results ++ concat (map snd (produced (tool_runs W url kws before s))))
      rest (after_tools W url kws before s).
Proof.
  revert results s. induction before as [|t before IH]; intros results s Hc; simpl.
  - now rewrite app_nil_r.
  - simpl in Hc. unfold mbind at 1, M_bind at 1, try_except, mbind at 1, M_bind at 1.
    destruct (_run_single_tool W t url kws s) as [[recs|e] s1] eqn:E; simpl in *.
    + apply Forall_cons in Hc as [_ Hc]. rewrite (IH _ _ Hc).
      unfold produced. simpl. now rewrite app_assoc.
    + apply Forall_cons in Hc as [He Hc]. rewrite (He e eq_refl). simpl.
      rewrite (IH _ _ Hc). reflexivity.
Qed.

(** X10: an exception that is not an [Exception], such as a keyboard
    interrupt, raised while a tool runs stops [run_for_target] at that
    tool: it is raised to the caller, the records of the tools before are
    not returned, and no tool after it is attempted (one page was opened
    for each tool up to that one and none after). *)
Theorem interrupt_stops_the_batch W url kws s before t after e :
  self_tools s = before ++ t :: after ->
  caught (tool_runs W url kws before s) ->
  let s1 := after_tools W url kws before s in
  fst (_run_single_tool W t url kws s1) = Raise e ->
  is_Exception e = false ->
  exists evs,
    run_for_target W url kws s = (Raise e, ext s evs)
    /\ ext s evs = snd (_run_single_tool W t url kws s1)
    /\ pages_opened evs = length before + 1.
Proof.
  intros Htools Hc s1 Hr He.
  destruct (after_tools_trace W url kws before s) as (evs1 & E1 & P1 & _).
  destruct (run_single_tool_trace W t url kws s1) as (evs2 & E2 & P2 & _).
  exists (evs1 ++ evs2).
  assert (Es : snd (_run_single_tool W t url kws s1) = ext s (evs1 ++ evs2)).
  { rewrite E2. unfold s1. now rewrite E1, ext_ext. }
  split; [|split; [now rewrite Es | rewrite pages_opened_app, P1, P2; reflexivity]].
  unfold run_for_target, mbind at 1, M_bind at 1, get_tools. rewrite Htools.
  rewrite (tools_loop_prefix W url kws before (t :: after) [] s Hc). fold s1.
  simpl tools_loop. unfold mbind at 1, M_bind at 1, try_except, mbind at 1, M_bind at 1.
  destruct (_run_single_tool W t url kws s1) as [[recs|e'] s2] eqn:E; simpl in *;
    [discriminate|].
  inversion Hr; subst e'. rewrite He, Es. reflexivity.
Qed.

Lemma interrupt_stops_the_batch_witness :
  exists evs,
    run_for_target (interrupted_web "http://stop.example/" "http://b.example/"
                      ["http://x.example/1"])
      "https://me.example" "kw"
      (runner_with ["http://a.example/"; "http://stop.example/"; "http://c.example/"])
    = (Raise KeyboardInterrupt,
       ext (runner_with ["http://a.example/"; "http://stop.example/"; "http://c.example/"]) evs)
    /\ pages_opened evs = 2.
Proof.
  destruct (interrupt_stops_the_batch
              (interrupted_web "http://stop.example/" "http://b.example/" ["http://x.example/1"])
              "https://me.example" "kw"
              (runner_with ["http://a.example/"; "http://stop.example/"; "http://c.example/"])
              ["http://a.example/"] "http://stop.example/" ["http://c.example/"]
              KeyboardInterrupt eq_refl)
    as (evs & R & _ & P).
  - repeat constructor. intros e H. vm_compute in H. discriminate.
  - vm_compute. reflexivity.
  - reflexivity.
  - exists evs. split; [exact R | exact P].
Defined.

(** ** Raw and unique counts *)

Lemma sublist_drop_duplicates_loop seen rows :
  drop_duplicates_loop seen rows `sublist_of` rows.
Proof.
  revert seen. induction rows as [|r rows IH]; intros seen; simpl.
  - constructor.
  - case_decide; [apply sublist_cons, IH | apply sublist_skip, IH].
Qed.

Lemma drop_duplicates_loop_same_length seen rows :
  length (drop_duplicates_loop seen rows) = length rows ->
  drop_duplicates_loop seen rows = rows.
Proof.
  revert seen. induction rows as [|r rows IH]; intros seen; simpl; [reflexivity|].
  case_decide.
  - intros Hl. pose proof (sublist_length _ _ (sublist_drop_duplicates_loop seen rows)). lia.
  - simpl. intros Hl. f_equal. apply IH. lia.
Qed.

(** X11: the unique rows are a subsequence of the collected rows, so the
    unique count never exceeds the raw count; the two counts are equal, and
    deduplication changes nothing, exactly when no two rows share a
    [backlink_url]. *)
Theorem unique_count_at_most_raw rows :
  drop_duplicates rows `sublist_of` rows
  /\ length (drop_duplicates rows) <= length rows
  /\ (drop_duplicates rows = rows <-> NoDup (map backlink_url rows))
  /\ (length (drop_duplicates rows) = length rows <-> NoDup (map backlink_url rows)).
Proof.
  assert (Hsub : drop_duplicates rows `sublist_of` rows)
    by apply sublist_drop_duplicates_loop.
  assert (Heq : drop_duplicates rows = rows <-> NoDup (map backlink_url rows)).
  { split.
    - intros E. rewrite <- E. apply NoDup_drop_duplicates_loop.
    - intros Hnd. apply drop_duplicates_loop_fixed; [exact Hnd | set_solver]. }
  split; [exact Hsub|]. split; [now apply sublist_length|]. split; [exact Heq|].
  rewrite <- Heq. split.
  - apply drop_duplicates_loop_same_length.
  - now intros ->.
Qed.

(** ** The guard of a run *)

Lemma normalize_targets_blank rows :
  Forall (fun t => PyStr.is_empty (PyStr.strip (get_or_empty t "url")) = true) rows ->
  normalize_targets rows = [].
Proof.
  induction 1 as [|t rest Ht F IH]; [reflexivity|].
  now rewrite normalize_targets_cons, Ht.
Qed.

(** X12: when no row has a URL other than white space, a run makes no
    call at all: no engine is started.  When rows remain and [__init__]
    fails with an [Exception], the run ends there: no page is opened and
    [shutdown] is not called, so what [__init__] had started stays open. *)
Theorem run_needs_a_target W rows s :
  (Forall (fun t => PyStr.is_empty (PyStr.strip (get_or_empty t "url")) = true) rows ->
   on_run_clicked W rows s = (Return NoTargets, s))
  /\ (forall e,
         normalize_targets rows <> [] ->
         fst (__init__ W true 60 s) = Raise e -> is_Exception e = true ->
         on_run_clicked W rows s = (Return InitFailed, snd (__init__ W true 60 s))).
Proof.
  split.
  - intros H. unfold on_run_clicked. now rewrite (normalize_targets_blank rows H).
  - intros e Hne Hr He. unfold on_run_clicked.
    destruct (normalize_targets rows) as [|t ts]; [congruence|].
    unfold mbind at 1, M_bind at 1, try_except, mbind at 1, M_bind at 1.
    destruct (__init__ W true 60 s) as [[[]|e'] s1]; simpl in *; [discriminate|].
    inversion Hr; subst e'. rewrite He. reflexivity.
Qed.

Lemma run_needs_a_target_witness :
  on_run_clicked no_browser [target_dict "   " "seo"; {[ "keywords" := "x" ]}] fresh
  = (Return NoTargets, fresh)
  /\ on_run_clicked no_browser [target_dict "https://me.example" "seo"] fresh
     = (Return InitFailed,
        State 60000 [] [Ev SyncPlaywrightStart None;
                        Ev (ChromiumLaunch true) (Some PlaywrightError)]).
Proof.
  split.
  - apply (proj1 (run_needs_a_target no_browser
                    [target_dict "   " "seo"; {[ "keywords" := "x" ]}] fresh)).
    repeat constructor.
  - apply (proj2 (run_needs_a_target no_browser
                    [target_dict "https://me.example" "seo"] fresh) PlaywrightError).
    + vm_compute. discriminate.
    + reflexivity.
    + reflexivity.
Defined.

(** ** The calls of the field locator *)



